(** * dove-eye: template tracker and application pipeline

    A shallow embedding of [TemplateTracker::InitTrackerData],
    [TemplateTracker::Search] (template_tracker.cc) and of the topology
    operations of [Application] (application.cc), with the properties the
    specification states about them.

    Conventions.
    - C++ [int] values ([cv::Point], [cv::Rect], matrix sizes, counters) are
      integers of [Z]; no operation of the code gets near the 32-bit range
      for an image, so wrap-around is not written out.
    - [float]/[double] values ([Mark::center], [Mark::radius], match scores,
      the threshold) are rationals of [Q], and a comparison of two of them is
      exact.  In [InitTrackerData] the result of every floating operation is
      rounded to the format: the rounding [fl] is an argument of the model,
      and the properties ask of it what every rounding of a binary format
      has ([rounding]).  In [Search] the scores are what the kernel gives,
      their difference is taken exactly, and the coordinates added are
      integers of the size of an image, which the format holds.  The
      conversion to [int] truncates toward zero.
    - [assert] is compiled in (debug build): a failed assertion aborts the
      operation.  An OpenCV precondition failure ([cv::Exception]) aborts
      it as well. *)

From Stdlib Require Import ZArith QArith Qround List Bool Lia Lqa Sorted.
From Stdlib Require Import FunctionalExtensionality.
Import ListNotations.

Local Open Scope Z_scope.

(** ** Outcomes of an operation *)

Inductive failure : Type :=
| AssertFailed   (* assert(...) did not hold *)
| CvError.       (* an OpenCV precondition failed: cv::Exception *)

Inductive result (A : Type) : Type :=
| Ok (a : A)
| Abort (f : failure).

Arguments Ok {A} a.
Arguments Abort {A} f.

Definition bind {A B : Type} (c : result A) (k : A -> result B) : result B :=
  match c with
  | Ok a => k a
  | Abort f => Abort f
  end.

Notation "x <- c ;; k" := (bind c (fun x => k))
  (at level 61, c at next level, right associativity).

Definition assert (b : bool) : result unit :=
  if b then Ok tt else Abort AssertFailed.

(** ** Numbers *)

Definition Qleb (a b : Q) : bool := Qle_bool a b.
Definition Qltb (a b : Q) : bool := negb (Qle_bool b a).

(** Conversion of a floating value to [int]: the fraction is dropped. *)
Definition trunc (q : Q) : Z := Z.quot (Qnum q) (Zpos (Qden q)).

(** Conversion of an [int] to the floating format with the rounding [fl]. *)
Definition of_int (fl : Q -> Q) (z : Z) : Q := fl (inject_Z z).

(** ** OpenCV data *)

(** [cv::Point] *)
Record Point : Type := mkPoint { px : Z; py : Z }.

(** [Point2] of dove_eye/types.h: a point with floating coordinates. *)
Record Point2 : Type := mkPoint2 { fx : Q; fy : Q }.

(** [cv::Rect] *)
Record Rect : Type := mkRect { x : Z; y : Z; width : Z; height : Z }.

(** [cv::Mat]: the header ([rows], [cols]) and the elements, read with
    [at_ m row col]. *)
Record Mat (A : Type) : Type := mkMat { rows : Z; cols : Z; at_ : Z -> Z -> A }.

Arguments mkMat {A} rows cols at_.
Arguments rows {A} m.
Arguments cols {A} m.
Arguments at_ {A} m _ _.

(** An element of an image or of a mask. *)
Definition pixel : Type := Z.

Definition Point_neg (p : Point) : Point := mkPoint (- px p) (- py p).
Definition Point_add (p q : Point) : Point := mkPoint (px p + px q) (py p + py q).
Definition Point_sub (p q : Point) : Point := mkPoint (px p - px q) (py p - py q).

Definition Point2_add (p q : Point2) : Point2 :=
  mkPoint2 (fx p + fx q)%Q (fy p + fy q)%Q.

Definition Point2_of_ints (a b : Z) : Point2 := mkPoint2 (inject_Z a) (inject_Z b).

(** [Rect::tl()] and [Rect::br()] *)
Definition tl (r : Rect) : Point := mkPoint (x r) (y r).
Definition br (r : Rect) : Point := mkPoint (x r + width r) (y r + height r).

(** [cv::Rect(pt1, pt2)]: the rectangle spanned by two corners. *)
Definition Rect_of_points (p1 p2 : Point) : Rect :=
  let x0 := Z.min (px p1) (px p2) in
  let y0 := Z.min (py p1) (py p2) in
  mkRect x0 y0 (Z.max (px p1) (px p2) - x0) (Z.max (py p1) (py p2) - y0).

(** [cv::Rect(cv::Point(0, 0), m.size())] *)
Definition Rect_of_size {A : Type} (m : Mat A) : Rect := mkRect 0 0 (cols m) (rows m).

(** [a & b]: the intersection, the empty rectangle when there is none. *)
Definition Rect_and (a b : Rect) : Rect :=
  let x1 := Z.max (x a) (x b) in
  let y1 := Z.max (y a) (y b) in
  let w := Z.min (x a + width a) (x b + width b) - x1 in
  let h := Z.min (y a + height a) (y b + height b) - y1 in
  if (w <=? 0) || (h <=? 0) then mkRect 0 0 0 0 else mkRect x1 y1 w h.

(** [Rect::contains] *)
Definition Rect_contains (r : Rect) (p : Point) : bool :=
  (x r <=? px p) && (px p <? x r + width r) &&
  (y r <=? py p) && (py p <? y r + height r).

(** The precondition of [Mat::operator()(const Rect&)]. *)
Definition roi_fits {A : Type} (m : Mat A) (r : Rect) : bool :=
  (0 <=? x r) && (0 <=? width r) && (x r + width r <=? cols m) &&
  (0 <=? y r) && (0 <=? height r) && (y r + height r <=? rows m).

(** The part of [m] under [r], as a matrix of its own. *)
Definition view {A : Type} (m : Mat A) (r : Rect) : Mat A :=
  mkMat (height r) (width r) (fun i j => at_ m (i + y r) (j + x r)).

(** [m(roi)]: the view of [m] on [roi]; no element is copied, and [clone()]
    of the view has the same header and elements. *)
Definition Mat_roi {A : Type} (m : Mat A) (r : Rect) : result (Mat A) :=
  if roi_fits m r then Ok (view m r) else Abort CvError.

(** ** Marks *)

Inductive MarkType : Type := kCircle | kRectangle.

Record Mark : Type := mkMark { type : MarkType; center : Point2; radius : Q }.

(** ** TemplateTracker *)

(** [TemplateTracker::TemplateData] *)
Record TemplateData : Type :=
  mkTemplateData { search_template : Mat pixel; tpl_radius : Q }.

(** [TemplateTracker::InitTrackerData].  [data_] is the tracker's member
    before the call; the result holds the returned flag and the member
    after the call.  [fl] rounds the result of a floating operation to the
    format: [data.cols - radius] converts the [int] and rounds the
    difference, [point.x - radius] and [2 * radius] are rounded before they
    are converted to the [int] arguments of [cv::Rect] (the constant 2 is a
    number of every binary format). *)
Definition InitTrackerData (fl : Q -> Q) (data_ : TemplateData) (data : Mat pixel)
           (mark : Mark) : result (bool * TemplateData) :=
  _ <- assert (match type mark with kCircle => true | kRectangle => false end) ;;
  let point := center mark in
  let radius := radius mark in
  if Qltb (fx point) radius || Qleb (fl (of_int fl (cols data) - radius)%Q) (fx point) ||
     Qltb (fy point) radius || Qleb (fl (of_int fl (rows data) - radius)%Q) (fy point)
  then Ok (false, data_)
  else
    let roi := mkRect (trunc (fl (fx point - radius)%Q)) (trunc (fl (fy point - radius)%Q))
                      (trunc (fl (2 * radius)%Q)) (trunc (fl (2 * radius)%Q)) in
    patch <- Mat_roi data roi ;;
    Ok (true, mkTemplateData patch radius).

Definition origin : Point := mkPoint 0 0.

(** Modelled from the spec: [TemplateData::TopLeft] and
    [TemplateData::BottomRight] are declared in dove_eye/template_tracker.h,
    which is not among the sources.  The specification has [Search] "extend
    the caller's rectangle outward by the template's half-size in every
    direction" and translate the winning location "by the template's
    top-left offset": the helpers move a point by half the template's size,
    to the top-left and to the bottom-right; called without an argument they
    move the origin. *)
Definition half_size (tpl : TemplateData) : Point :=
  mkPoint (Z.quot (cols (search_template tpl)) 2) (Z.quot (rows (search_template tpl)) 2).

Definition TopLeft (tpl : TemplateData) (point : Point) : Point :=
  Point_sub point (half_size tpl).

Definition BottomRight (tpl : TemplateData) (point : Point) : Point :=
  Point_add point (half_size tpl).

(** The comparison methods of [cv::matchTemplate] named in [Search]. *)
Inductive TemplateMatchMode : Type :=
| CV_TM_SQDIFF_NORMED
| CV_TM_CCORR_NORMED
| CV_TM_CCOEFF_NORMED.

(** Experimentally CV_TM_CCOEFF_NORMED gave best results. *)
Definition method : TemplateMatchMode := CV_TM_CCOEFF_NORMED.

(** The row-major list of the positions of a matrix, as [cv::Point (column, row)]. *)
Definition zseq (n : Z) : list Z := map Z.of_nat (seq 0 (Z.to_nat n)).

Definition cells {A : Type} (m : Mat A) : list Point :=
  flat_map (fun i => map (fun j => mkPoint j i) (zseq (cols m))) (zseq (rows m)).

Definition value_at {A : Type} (m : Mat A) (p : Point) : A := at_ m (py p) (px p).

(** A position counts when no mask is given or the mask is non-zero there. *)
Definition selected (mask : option (Mat pixel)) (p : Point) : bool :=
  match mask with
  | None => true
  | Some k => negb (value_at k p =? 0)
  end.

(** The outputs of [cv::minMaxLoc]. *)
Record Extremes : Type :=
  mkExtremes { min_val : Q; max_val : Q; min_loc : Point; max_loc : Point }.

(** One pass over the positions; a later position replaces the current
    extreme only when it is strictly better, so that the first of several
    equal extremes is the one reported. *)
Fixpoint scan (src : Mat Q) (ps : list Point) (acc : Extremes) : Extremes :=
  match ps with
  | [] => acc
  | p :: ps' =>
      let v := value_at src p in
      let acc1 := if Qltb v (min_val acc)
                  then mkExtremes v (max_val acc) p (max_loc acc) else acc in
      let acc2 := if Qltb (max_val acc1) v
                  then mkExtremes (min_val acc1) v (min_loc acc1) p else acc1 in
      scan src ps' acc2
  end.

(** [cv::minMaxLoc(src, &min_val, &max_val, &min_loc, &max_loc, mask)].
    When the mask selects no position OpenCV reports the values 0 and the
    locations (-1, -1). *)
Definition minMaxLoc (src : Mat Q) (mask : option (Mat pixel)) : Extremes :=
  match filter (selected mask) (cells src) with
  | [] => mkExtremes 0 0 (mkPoint (-1) (-1)) (mkPoint (-1) (-1))
  | p :: ps => scan src ps (mkExtremes (value_at src p) (value_at src p) p p)
  end.

Definition Qsum (l : list Q) : Q := fold_right Qplus 0%Q l.

Section Matching.

(** The numeric kernels of OpenCV are kept abstract: [score m w t] is the
    value [cv::matchTemplate] with method [m] gives a window [w] of the
    image compared with the template [t], and [cv_sqrt] is the square
    root [cv::meanStdDev] takes of the variance. *)
Variable score : TemplateMatchMode -> Mat pixel -> Mat pixel -> Q.
Variable cv_sqrt : Q -> Q.

(** The window of [image] whose top-left element is at row [i], column [j]. *)
Definition window (image templ : Mat pixel) (i j : Z) : Mat pixel :=
  mkMat (rows templ) (cols templ) (fun a b => at_ image (a + i) (b + j)).

(** [cv::matchTemplate(image, templ, result, method)]: one score for each
    position of the template inside the image. *)
Definition matchTemplate (image templ : Mat pixel) (m : TemplateMatchMode) : Mat Q :=
  mkMat (rows image - rows templ + 1) (cols image - cols templ + 1)
        (fun i j => score m (window image templ i j) templ).

(** [cv::meanStdDev(src, noArray(), std_dev, mask)]: the standard
    deviation of the selected elements. *)
Definition meanStdDev (src : Mat Q) (mask : option (Mat pixel)) : Q :=
  let vs := map (value_at src) (filter (selected mask) (cells src)) in
  match vs with
  | [] => 0%Q
  | _ :: _ =>
      let n := inject_Z (Z.of_nat (length vs)) in
      let mean := (Qsum vs / n)%Q in
      cv_sqrt (Qsum (map (fun v => (v - mean) * (v - mean))%Q vs) / n)%Q
  end.

(** *** The stages of [TemplateTracker::Search] *)

(** The extended search region. *)
Definition extended_roi_of (data : Mat pixel) (tpl : TemplateData) (roi : option Rect) : Rect :=
  match roi with
  | None => Rect_of_size data
  | Some r =>
      Rect_and (Rect_of_points (TopLeft tpl (tl r)) (BottomRight tpl (br r)))
               (Rect_of_size data)
  end.

(** The small-roi test. *)
Definition small_roi (tpl : TemplateData) (extended_roi : Rect) : bool :=
  (width extended_roi <? cols (search_template tpl)) ||
  (height extended_roi <? rows (search_template tpl)).

(** The score map. *)
Definition match_result_of (data : Mat pixel) (tpl : TemplateData) (extended_roi : Rect)
  : result (Mat Q) :=
  image <- Mat_roi data extended_roi ;;
  Ok (matchTemplate image (search_template tpl) method).

(** The mask brought to the coordinates of the score map. *)
Definition shifted_mask_of (tpl : TemplateData) (extended_roi : Rect)
           (match_result : Mat Q) (mask : Mat pixel) : result (Mat pixel) :=
  (* Mask is first cropped with same ROI as image *)
  cropped_mask <- Mat_roi mask extended_roi ;;
  (* Consequently mask is shifted, which is effectively cropping top-left corner *)
  let mask_br := mkPoint (cols cropped_mask) (rows cropped_mask) in
  let shift_rect := Rect_of_points (Point_neg (TopLeft tpl origin))
                                   (Point_sub mask_br (BottomRight tpl origin)) in
  (* We've worked with (zero-based) coordinates, add one to size *)
  let shift_rect := mkRect (x shift_rect) (y shift_rect)
                           (width shift_rect + 1) (height shift_rect + 1) in
  shifted_mask <- Mat_roi cropped_mask shift_rect ;;
  _ <- assert (rows match_result =? rows shifted_mask) ;;
  _ <- assert (cols match_result =? cols shifted_mask) ;;
  Ok shifted_mask.

(** The mask the statistics are taken with, if any. *)
Definition mask_for_scores (tpl : TemplateData) (extended_roi : Rect)
           (match_result : Mat Q) (mask : option (Mat pixel))
  : result (option (Mat pixel)) :=
  match mask with
  | Some m =>
      shifted_mask <- shifted_mask_of tpl extended_roi match_result m ;;
      Ok (Some shifted_mask)
  | None => Ok None
  end.

(** Extremes and standard deviation of the score map. *)
Definition statistics_of (tpl : TemplateData) (extended_roi : Rect)
           (match_result : Mat Q) (mask : option (Mat pixel)) : result (Extremes * Q) :=
  match mask with
  | Some m =>
      shifted_mask <- shifted_mask_of tpl extended_roi match_result m ;;
      Ok (minMaxLoc match_result (Some shifted_mask),
          meanStdDev match_result (Some shifted_mask))
  | None =>
      Ok (minMaxLoc match_result None, meanStdDev match_result None)
  end.

(** The confidence of a match and the location that wins, by method. *)
Definition confidence (m : TemplateMatchMode) (e : Extremes) : Q :=
  match m with
  | CV_TM_SQDIFF_NORMED => (1 - min_val e)%Q
  | CV_TM_CCORR_NORMED => max_val e
  | CV_TM_CCOEFF_NORMED => (max_val e - min_val e)%Q
  end.

Definition winning_loc (m : TemplateMatchMode) (e : Extremes) : Point :=
  match m with
  | CV_TM_SQDIFF_NORMED => min_loc e
  | CV_TM_CCORR_NORMED => max_loc e
  | CV_TM_CCOEFF_NORMED => max_loc e
  end.

(** The mark at a location of the score map, in the coordinates of the
    whole image. *)
Definition mark_at (tpl : TemplateData) (extended_roi : Rect) (loc : Point) : Mark :=
  let tpl_offset := Point_neg (TopLeft tpl origin) in
  let match_point := Point2_add (Point2_of_ints (px loc) (py loc))
                                (Point2_of_ints (px tpl_offset) (py tpl_offset)) in
  let match_point := Point2_add match_point
                                (Point2_of_ints (x extended_roi) (y extended_roi)) in
  mkMark kCircle match_point (tpl_radius tpl).

(** [TemplateTracker::Search]: [Ok (Some mark)] when it returns [true]
    with [*result = mark], [Ok None] when it returns [false]. *)
Definition Search (data : Mat pixel) (tpl : TemplateData) (roi : option Rect)
           (mask : option (Mat pixel)) (threshold : Q) : result (option Mark) :=
  let extended_roi := extended_roi_of data tpl roi in
  if small_roi tpl extended_roi then Ok None
  else
    match_result <- match_result_of data tpl extended_roi ;;
    stats <- statistics_of tpl extended_roi match_result mask ;;
    let value := confidence method (fst stats) in
    if Qleb value threshold then Ok None
    else Ok (Some (mark_at tpl extended_roi (winning_loc method (fst stats)))).

End Matching.

(** ** Application *)

(** [VideoProvider*]: a capture handle, named by the device it opens. *)
Definition VideoProvider : Type := Z.

(** [dove_eye::CalibrationData]: the arity it was computed for and the
    camera parameters, which the application never inspects. *)
Record CalibrationData : Type :=
  mkCalibrationData { Arity : Z; camera_parameters : list Q }.

(** Modelled from the spec: [Controller] (controller.h) and
    [FramesetConverter] (frameset_converter.h) are not among the sources.
    A controller "is parameterized by arity (camera count) at construction
    and immutable thereafter" and owns the sources handed to its aggregator;
    a converter is built for an arity. *)
Record Controller : Type :=
  mkController { controller_providers : list VideoProvider; controller_Arity : Z }.

Record FramesetConverter : Type := mkFramesetConverter { converter_Arity : Z }.

(** Qt signals of [Application] and the connections [SetupController] and
    [SetupConverter] make. *)
Inductive Signal : Type :=
| SetupPipeline
| CalibrationDataReady (calibration_data : CalibrationData).

Inductive Connection : Type :=
| Controller_CalibrationDataReady_Application_SetCalibrationData
| Application_CalibrationDataReady_Controller_SetCalibrationData
| Controller_FramesetReady_Converter_ProcessFrameset
| Controller_PositsetReady_Converter_ProcessPositset
| Converter_MarkCreated_Controller_SetMark.

(** What an operation does beyond its members, in the order it happens. *)
Inductive Event : Type :=
| Emit (s : Signal)
| Delete (provider : VideoProvider)            (* a provider is destroyed *)
| DestroyController (c : Controller)           (* SwapAndDestroy of the old object *)
| DestroyConverter (c : FramesetConverter)
| Connect (c : Connection)
| InvokeStart (calibration_only : bool).       (* queued Controller::Start *)

(** The members of [Application] the operations touch, and the events so
    far.  A slot of [available_providers_] is a [unique_ptr]: [Some p] owns
    [p], [None] is a released (null) slot. *)
Record Application : Type := mkApplication {
  arity_ : Z;
  available_providers_ : list (option VideoProvider);
  controller_ : option Controller;
  converter_ : option FramesetConverter;
  calibration_data_ : option CalibrationData;
  events : list Event
}.

Definition log (e : list Event) (app : Application) : Application :=
  mkApplication (arity_ app) (available_providers_ app) (controller_ app)
                (converter_ app) (calibration_data_ app) (events app ++ e).

(** The state [Application::Application()] sets up. *)
Definition Application_new : Application := mkApplication 0 [] None None None [].

(** Destroying the owning slots deletes every provider still owned. *)
Definition owned (slots : list (option VideoProvider)) : list VideoProvider :=
  flat_map (fun o => match o with Some p => [p] | None => [] end) slots.

(** [available_providers_.clear()] *)
Definition clear_available (app : Application) : Application :=
  mkApplication (arity_ app) [] (controller_ app) (converter_ app)
                (calibration_data_ app)
                (events app ++ map Delete (owned (available_providers_ app))).

Definition set_arity (n : Z) (app : Application) : Application :=
  mkApplication n (available_providers_ app) (controller_ app) (converter_ app)
                (calibration_data_ app) (events app).

(** Modelled from the spec: [SwapAndDestroy] (application.h) is not among the
    sources.  It installs the new object and leaves the old one, when there
    is one, to deferred destruction. *)
Definition SwapAndDestroy_controller (new_controller : option Controller)
           (app : Application) : Application :=
  mkApplication (arity_ app) (available_providers_ app) new_controller (converter_ app)
                (calibration_data_ app)
                (events app ++ match controller_ app with
                               | Some old => [DestroyController old]
                               | None => []
                               end).

Definition SwapAndDestroy_converter (new_converter : option FramesetConverter)
           (app : Application) : Application :=
  mkApplication (arity_ app) (available_providers_ app) (controller_ app) new_converter
                (calibration_data_ app)
                (events app ++ match converter_ app with
                               | Some old => [DestroyConverter old]
                               | None => []
                               end).

(** [Application::TeardownController], [Application::TeardownConverter] *)
Definition TeardownController (app : Application) : Application :=
  SwapAndDestroy_controller None app.

Definition TeardownConverter (app : Application) : Application :=
  SwapAndDestroy_converter None app.

(** [Application::InitializeEmpty] *)
Definition InitializeEmpty (app : Application) : Application :=
  let app := clear_available app in
  let app := set_arity 0 app in
  let app := TeardownConverter app in
  let app := TeardownController app in
  log [Emit SetupPipeline] app.

(** [Application::SetupController] *)
Definition SetupController (providers : list VideoProvider) (app : Application)
  : result Application :=
  _ <- assert (0 <? Z.of_nat (length providers)) ;;
  let new_controller := mkController providers (arity_ app) in
  let app := log [Connect Controller_CalibrationDataReady_Application_SetCalibrationData;
                  Connect Application_CalibrationDataReady_Controller_SetCalibrationData] app in
  Ok (SwapAndDestroy_controller (Some new_controller) app).

(** [Application::SetupConverter] *)
Definition SetupConverter (app : Application) : result Application :=
  _ <- assert (match controller_ app with Some _ => true | None => false end) ;;
  let new_converter := mkFramesetConverter (arity_ app) in
  let app := SwapAndDestroy_converter (Some new_converter) app in
  Ok (log [Connect Controller_FramesetReady_Converter_ProcessFrameset;
           Connect Controller_PositsetReady_Converter_ProcessPositset;
           Connect Converter_MarkCreated_Controller_SetMark] app).

(** The inner loop of [Initialize]: the first slot that owns [provider]
    releases it; [None] when no slot owns it ([released] stays false). *)
Fixpoint release (provider : VideoProvider) (slots : list (option VideoProvider))
  : option (list (option VideoProvider)) :=
  match slots with
  | [] => None
  | provider_owner :: rest =>
      match provider_owner with
      | Some p =>
          if p =? provider then Some (None :: rest)
          else option_map (cons provider_owner) (release provider rest)
      | None => option_map (cons provider_owner) (release provider rest)
      end
  end.

(** The outer loop of [Initialize]. *)
Fixpoint move_providers (providers : list VideoProvider)
         (slots : list (option VideoProvider)) (used_providers : list VideoProvider)
  : result (list (option VideoProvider) * list VideoProvider) :=
  match providers with
  | [] => Ok (slots, used_providers)
  | provider :: rest =>
      match release provider slots with
      | None => Abort AssertFailed                       (* assert(released) *)
      | Some slots' => move_providers rest slots' (used_providers ++ [provider])
      end
  end.

Definition set_available (slots : list (option VideoProvider)) (app : Application)
  : Application :=
  mkApplication (arity_ app) slots (controller_ app) (converter_ app)
                (calibration_data_ app) (events app).

(** [Application::Initialize] *)
Definition Initialize (providers : list VideoProvider) (app : Application)
  : result Application :=
  moved <- move_providers providers (available_providers_ app) [] ;;
  let used_providers := snd moved in
  let app := clear_available (set_available (fst moved) app) in
  let app := set_arity (Z.of_nat (length used_providers)) app in
  app <- SetupController used_providers app ;;
  app <- SetupConverter app ;;
  let app := log [Emit SetupPipeline] app in
  Ok (log [InvokeStart false] app).

(** [Application::SetCalibrationData] *)
Definition SetCalibrationData (calibration_data : CalibrationData) (app : Application)
  : result Application :=
  match controller_ app with
  | None => Abort AssertFailed                           (* assert(controller_) *)
  | Some controller =>
      _ <- assert (controller_Arity controller =? Arity calibration_data) ;;
      let app := mkApplication (arity_ app) (available_providers_ app) (controller_ app)
                               (converter_ app) (Some calibration_data) (events app) in
      Ok (log [Emit (CalibrationDataReady calibration_data)] app)
  end.

Section Discovery.

(** [Frameset::kMaxArity] (frameset.h) is not among the sources: it is a
    parameter.  [working device] tells whether the camera at [device]
    delivers a frame ([provider->begin() != provider->end()]). *)
Variable kMaxArity : Z.
Variable working : Z -> bool.

Definition push_back (provider : VideoProvider) (app : Application) : Application :=
  set_available (available_providers_ app ++ [Some provider]) app.

(** The scan loop of [AvailableVideoProviders], from the values [device]
    and [errors] have at the top of an iteration.  [fuel] bounds the
    iterations; [None] means it ran out. *)
Fixpoint scan_devices (fuel : nat) (skip tests device errors : Z) (app : Application)
  : option Application :=
  match fuel with
  | O => None
  | S fuel' =>
      let provider := device in
      if working device then
        let app := push_back provider app in
        if tests <=? device + 1 then Some app
        else scan_devices fuel' skip tests (device + 1) errors app
      else
        let app := log [Delete provider] app in
        let errors := errors + 1 in
        if skip <=? errors then Some app
        else if tests <=? device + 1 then Some app
             else scan_devices fuel' skip tests (device + 1) errors app
  end.

(** [Application::AvailableVideoProviders]: the application afterwards and
    the pointers returned. *)
Definition AvailableVideoProviders (app : Application)
  : option (Application * list VideoProvider) :=
  let app := InitializeEmpty app in
  (* assert(available_providers_.size() == 0) holds: the pool was cleared *)
  let skip := kMaxArity in
  let tests := 2 * kMaxArity in
  match scan_devices (S (Z.to_nat tests)) skip tests 0 0 app with
  | None => None
  | Some app => Some (app, owned (available_providers_ app))
  end.

(** The discovery policy in the words of the specification: probing stops
    after [kMaxArity] consecutive misses or after [2 * kMaxArity] attempts.
    [misses] counts the misses since the last device that worked. *)
Fixpoint discover_consecutive (fuel : nat) (device misses : Z) (found : list VideoProvider)
  : list VideoProvider :=
  match fuel with
  | O => found
  | S fuel' =>
      if 2 * kMaxArity <=? device then found
      else if working device
           then discover_consecutive fuel' (device + 1) 0 (found ++ [device])
           else if kMaxArity <=? misses + 1 then found
                else discover_consecutive fuel' (device + 1) (misses + 1) found
  end.

Definition DiscoverSources_spec : list VideoProvider :=
  discover_consecutive (S (Z.to_nat (2 * kMaxArity))) 0 0 [].

End Discovery.

(** ** Statements about InitTrackerData *)

(** What the properties ask of the rounding of a floating operation, for
    images of at most [bound] rows and columns: it keeps the order, and it
    leaves the integers up to [bound] as they are.  Rounding to nearest (and
    every directed rounding) of a binary format with [p] bits of precision
    is such a rounding for [bound <= 2^p], since it keeps the order and
    leaves the numbers of the format as they are. *)
Definition rounding (fl : Q -> Q) (bound : Z) : Prop :=
  (forall a b : Q, (a <= b)%Q -> (fl a <= fl b)%Q) /\
  (forall z : Z, - bound <= z <= bound -> (fl (inject_Z z) == inject_Z z)%Q).

(** [q] is a number of the format: rounding leaves it as it is. *)
Definition exact (fl : Q -> Q) (q : Q) : Prop := (fl q == q)%Q.

(** The rounding of the examples, whose values and results are numbers of
    every binary format of eight bits or more. *)
Definition no_rounding (q : Q) : Q := q.

(** The guard of [InitTrackerData], negated, as the code evaluates it. *)
Definition accepted (fl : Q -> Q) (data : Mat pixel) (mark : Mark) : Prop :=
  (radius mark <= fx (center mark))%Q /\
  (fx (center mark) < fl (of_int fl (cols data) - radius mark))%Q /\
  (radius mark <= fy (center mark))%Q /\
  (fy (center mark) < fl (of_int fl (rows data) - radius mark))%Q.

(** The same inequalities on the differences themselves: the circle stays
    inside the image. *)
Definition inside (data : Mat pixel) (mark : Mark) : Prop :=
  (radius mark <= fx (center mark))%Q /\
  (fx (center mark) < inject_Z (cols data) - radius mark)%Q /\
  (radius mark <= fy (center mark))%Q /\
  (fy (center mark) < inject_Z (rows data) - radius mark)%Q.

(** The region [InitTrackerData] crops. *)
Definition patch_rect (fl : Q -> Q) (mark : Mark) : Rect :=
  mkRect (trunc (fl (fx (center mark) - radius mark)%Q))
         (trunc (fl (fy (center mark) - radius mark)%Q))
         (trunc (fl (2 * radius mark)%Q)) (trunc (fl (2 * radius mark)%Q)).

Definition patch_of (fl : Q -> Q) (data : Mat pixel) (mark : Mark) : Mat pixel :=
  view data (patch_rect fl mark).

Definition Init_succeeds (fl : Q -> Q) (data_ : TemplateData) (data : Mat pixel)
           (mark : Mark) : Prop :=
  exists tpl, InitTrackerData fl data_ data mark = Ok (true, tpl).

(** The bound of the specification, radius <= min(center.x, center.y,
    width-1-center.x, height-1-center.y), one conjunct for each argument of
    the minimum. *)
Definition min_bound (data : Mat pixel) (mark : Mark) : Prop :=
  (radius mark <= fx (center mark))%Q /\
  (radius mark <= fy (center mark))%Q /\
  (radius mark <= inject_Z (cols data) - 1 - fx (center mark))%Q /\
  (radius mark <= inject_Z (rows data) - 1 - fy (center mark))%Q.

Definition blank (h w : Z) : Mat pixel := mkMat h w (fun _ _ => 0).

Definition no_template : TemplateData := mkTemplateData (mkMat 0 0 (fun _ _ => 0)) 0.

Definition circle (cx cy r : Q) : Mark := mkMark kCircle (mkPoint2 cx cy) r.

(** ** Statements about Application *)

(** The states the application goes through: it starts as constructed and
    changes by the operations above. *)
Inductive reachable : Application -> Prop :=
| reach_new : reachable Application_new
| reach_InitializeEmpty app :
    reachable app -> reachable (InitializeEmpty app)
| reach_AvailableVideoProviders kMaxArity working app app' sources :
    reachable app ->
    AvailableVideoProviders kMaxArity working app = Some (app', sources) ->
    reachable app'
| reach_Initialize providers app app' :
    reachable app -> Initialize providers app = Ok app' -> reachable app'
| reach_SetCalibrationData calibration_data app app' :
    reachable app -> SetCalibrationData calibration_data app = Ok app' -> reachable app'.

(** The application after a run of operations that did not abort. *)
Definition from_Ok (r : result Application) : Application :=
  match r with
  | Ok app => app
  | Abort _ => Application_new
  end.

(** The application after a discovery that finds cameras 0, 1 and 2. *)
Definition three_cameras : Application :=
  match AvailableVideoProviders 3 (fun device => device <? 3) Application_new with
  | Some (app, _) => app
  | None => Application_new
  end.

Definition calibration2 : CalibrationData := mkCalibrationData 2 [1; 0; 0; 1]%Q.
Definition calibration3 : CalibrationData := mkCalibrationData 3 [1; 0; 0; 1; 0; 0]%Q.

(** A pipeline of cameras 0 and 2, with a calibration of arity 2 applied. *)
Definition calibrated_pipeline : Application :=
  from_Ok (app <- Initialize [0; 2] three_cameras ;; SetCalibrationData calibration2 app).

(** The devices [first], [first + 1], ... ([count] of them). *)
Definition devices (first : Z) (count : nat) : list Z :=
  map (fun i => first + Z.of_nat i) (seq 0 count).

Definition broken (working : Z -> bool) (device : Z) : bool := negb (working device).

(** The number of devices that do not work among the first [count]. *)
Definition misses (working : Z -> bool) (first : Z) (count : nat) : Z :=
  Z.of_nat (length (filter (broken working) (devices first count))).

(** [probed working first count app app']: [app'] is [app] after the devices
    [first], ..., [first + count - 1] were probed: those that work joined
    the pool, in order, and the others were deleted. *)
Definition probed (working : Z -> bool) (first : Z) (count : nat)
           (app app' : Application) : Prop :=
  arity_ app' = arity_ app /\
  available_providers_ app'
  = available_providers_ app ++ map Some (filter working (devices first count)) /\
  controller_ app' = controller_ app /\
  converter_ app' = converter_ app /\
  calibration_data_ app' = calibration_data_ app /\
  events app' = events app ++ map Delete (filter (broken working) (devices first count)).

(** ** Statements about Search *)

(** The positions [cv::minMaxLoc] and [cv::meanStdDev] look at, in the order
    of the scan. *)
Definition selection {A : Type} (src : Mat A) (mask : option (Mat pixel)) : list Point :=
  filter (selected mask) (cells src).

(** The caller's rectangle grown by the template's half-size on every side. *)
Definition grown (tpl : TemplateData) (r : Rect) : Rect :=
  mkRect (x r - px (half_size tpl)) (y r - py (half_size tpl))
         (width r + 2 * px (half_size tpl)) (height r + 2 * py (half_size tpl)).

(** A model of the kernels, to run [Search] on examples.  The scores follow
    the formulas documented for [cv::matchTemplate], in integer arithmetic
    over the positions of the template; the square root of the denominator is
    rounded down (it is exact on squares), and a quotient that would leave
    [-1, 1] is replaced as [cv::matchTemplate] does. *)
Definition Zsum (l : list Z) : Z := fold_right Z.add 0 l.

Definition normed (m : TemplateMatchMode) (num t2 : Z) : Q :=
  let t := Z.sqrt t2 in
  if Z.abs num <? t then Qred (num # Z.to_pos t)
  else if 8 * Z.abs num <? 9 * t then inject_Z (Z.sgn num)
       else match m with CV_TM_SQDIFF_NORMED => 1%Q | _ => 0%Q end.

Definition cv_score (m : TemplateMatchMode) (w t : Mat pixel) : Q :=
  let ps := cells t in
  let n := Z.of_nat (length ps) in
  let sw := Zsum (map (value_at w) ps) in
  let st := Zsum (map (value_at t) ps) in
  let sww := Zsum (map (fun p => value_at w p * value_at w p) ps) in
  let stt := Zsum (map (fun p => value_at t p * value_at t p) ps) in
  let swt := Zsum (map (fun p => value_at w p * value_at t p) ps) in
  match m with
  | CV_TM_SQDIFF_NORMED => normed m (sww - 2 * swt + stt) (sww * stt)
  | CV_TM_CCORR_NORMED => normed m swt (sww * stt)
  | CV_TM_CCOEFF_NORMED =>
      (* a template without variance: the result is set to 1 everywhere *)
      if n * stt - st * st =? 0 then 1%Q
      else normed m (n * swt - sw * st) ((n * sww - sw * sw) * (n * stt - st * st))
  end.

Definition sqrt_model (q : Q) : Q := Z.sqrt (Qnum q * Zpos (Qden q)) # Qden q.


Definition spot : Mat pixel :=
  mkMat 4 4 (fun i j => if (i =? 1) && (j =? 1) then 9 else 0).

Definition ones (h w : Z) : Mat pixel := mkMat h w (fun _ _ => 1).

(** The templates [InitTrackerData] stores for the circle of radius 1 at
    (1, 1), in [spot] and in a blank 3x3 image, and for the circle of radius
    3/2 at (3/2, 3/2) in [spot]. *)
Definition spot_template : TemplateData :=
  mkTemplateData (view spot (mkRect 0 0 2 2)) 1.

Definition flat_template : TemplateData :=
  mkTemplateData (view (blank 3 3) (mkRect 0 0 2 2)) 1.

Definition odd_template : TemplateData :=
  mkTemplateData (view spot (mkRect 0 0 3 3)) (3 # 2).






(** The centre, in image coordinates, of the window at the position [loc] of
    the score map. *)
Definition match_point (tpl : TemplateData) (extended_roi : Rect) (loc : Point) : Point :=
  mkPoint (px loc + px (half_size tpl) + x extended_roi)
          (py loc + py (half_size tpl) + y extended_roi).

(** The part of the mask cropped to the extended region that [Search] keeps. *)
Definition shift_rect_of (tpl : TemplateData) (extended_roi : Rect) : Rect :=
  mkRect (px (half_size tpl)) (py (half_size tpl))
         (width extended_roi - 2 * px (half_size tpl) + 1)
         (height extended_roi - 2 * py (half_size tpl) + 1).

(** The pixel of an image nearest to the origin from a floating point. *)
Definition pixel_of (p : Point2) : Point := mkPoint (trunc (fx p)) (trunc (fy p)).

(** The order in which a matrix is scanned: row by row, each row from the
    left. *)
Definition before (p q : Point) : Prop :=
  py p < py q \/ (py p = py q /\ px p < px q).



(** ** Statements about the pipeline's states *)

(** Every slot of the pool owns a provider. *)
Definition all_owning (slots : list (option VideoProvider)) : Prop :=
  forall slot, In slot slots -> slot <> None.

(** What the members of [Application] satisfy between two operations. *)
Definition coherent (app : Application) : Prop :=
  NoDup (owned (available_providers_ app)) /\
  all_owning (available_providers_ app) /\
  match controller_ app with
  | None => converter_ app = None /\ arity_ app = 0
  | Some c =>
      available_providers_ app = [] /\
      controller_providers c <> [] /\ NoDup (controller_providers c) /\
      arity_ app = Z.of_nat (length (controller_providers c)) /\
      controller_Arity c = arity_ app /\
      converter_ app = Some (mkFramesetConverter (arity_ app))
  end.

(** Events among which no calibration data is broadcast. *)
Definition quiet (evs : list Event) : Prop :=
  forall d, ~ In (Emit (CalibrationDataReady d)) evs.

(** [d] is the calibration data broadcast last. *)
Definition last_broadcast (evs : list Event) (d : CalibrationData) : Prop :=
  exists before_ after_,
    evs = before_ ++ Emit (CalibrationDataReady d) :: after_ /\ quiet after_.

(** The events by which [Initialize] hands an old controller and an old
    converter to destruction. *)
Definition retire_controller (app : Application) : list Event :=
  match controller_ app with Some old => [DestroyController old] | None => [] end.

Definition retire_converter (app : Application) : list Event :=
  match converter_ app with Some old => [DestroyConverter old] | None => [] end.

(** [spot] with one more bright pixel, at row 3 and column 3. *)
Definition spot_far : Mat pixel :=
  mkMat 4 4 (fun i j => if (i =? 1) && (j =? 1) then 9
                        else if (i =? 3) && (j =? 3) then 5 else 0).

(** * Properties *)

(** ** Numbers *)

Lemma Qleb_true (a b : Q) : Qleb a b = true <-> (a <= b)%Q.
Proof. unfold Qleb. apply Qle_bool_iff. Qed.

Lemma Qleb_false (a b : Q) : Qleb a b = false <-> (b < a)%Q.
Proof.
  unfold Qleb. split; intro H.
  - apply Qnot_le_lt. intro Hle. apply Qle_bool_iff in Hle. congruence.
  - destruct (Qle_bool a b) eqn:E; trivial.
    apply Qle_bool_iff in E. exfalso. apply (Qlt_not_le _ _ H E).
Qed.

Lemma Qltb_true (a b : Q) : Qltb a b = true <-> (a < b)%Q.
Proof.
  unfold Qltb. rewrite negb_true_iff. apply (Qleb_false b a).
Qed.

Lemma Qltb_false (a b : Q) : Qltb a b = false <-> (b <= a)%Q.
Proof.
  unfold Qltb. rewrite negb_false_iff. apply (Qleb_true b a).
Qed.

Lemma trunc_floor (q : Q) : (0 <= q)%Q -> trunc q = Qfloor q.
Proof.
  destruct q as [n d]. unfold Qle, trunc, Qfloor. simpl. intro H.
  apply Z.quot_div_nonneg; lia.
Qed.

Lemma trunc_nonneg (q : Q) : (0 <= q)%Q -> 0 <= trunc q.
Proof.
  intro H. rewrite trunc_floor by assumption.
  change 0 with (Qfloor 0). apply Qfloor_resp_le. assumption.
Qed.

Lemma trunc_le (q : Q) : (0 <= q)%Q -> (inject_Z (trunc q) <= q)%Q.
Proof. intro H. rewrite trunc_floor by assumption. apply Qfloor_le. Qed.

Lemma trunc_gt (q : Q) : (0 <= q)%Q -> (q < inject_Z (trunc q + 1))%Q.
Proof. intro H. rewrite trunc_floor by assumption. apply Qlt_floor. Qed.

Lemma trunc_inject_Z (z : Z) : trunc (inject_Z z) = z.
Proof. unfold trunc. simpl. apply Z.quot_1_r. Qed.

Lemma trunc_inject_Z_sub (a b : Z) : trunc (inject_Z a - inject_Z b) = a - b.
Proof. unfold trunc. simpl. rewrite Z.quot_1_r. lia. Qed.

Lemma trunc_inject_Z_double (a : Z) : trunc (2 * inject_Z a) = 2 * a.
Proof. unfold trunc. simpl. rewrite Z.quot_1_r. lia. Qed.

(** ** Rounding *)

Lemma trunc_eq_int (q : Q) (z : Z) : (q == inject_Z z)%Q -> trunc q = z.
Proof.
  destruct q as [n d]. unfold Qeq, trunc. simpl. intro H.
  rewrite Z.mul_1_r in H. rewrite H. apply Z.quot_mul. lia.
Qed.

Lemma trunc_mono (a b : Q) : (0 <= a)%Q -> (a <= b)%Q -> trunc a <= trunc b.
Proof.
  intros Ha Hab. rewrite !trunc_floor by lra. now apply Qfloor_resp_le.
Qed.

Lemma trunc_eq (a b : Q) : (0 <= a)%Q -> (a == b)%Q -> trunc a = trunc b.
Proof.
  intros Ha Hab. rewrite !trunc_floor by lra. now apply Qfloor_comp.
Qed.

Lemma no_rounding_rounding (bound : Z) : rounding no_rounding bound.
Proof.
  split.
  - intros a b H. exact H.
  - intros z _. reflexivity.
Qed.

Section Rounding.

Variable fl : Q -> Q.
Variable bound : Z.
Hypothesis Hfl : rounding fl bound.

Arguments fl _%_Q.

Lemma fl_eq (a b : Q) : (a == b)%Q -> (fl a == fl b)%Q.
Proof.
  intro H. destruct Hfl as (Hm & _). apply Qle_antisym; apply Hm; rewrite H; apply Qle_refl.
Qed.

Lemma fl_int (q : Q) (z : Z) :
  - bound <= z <= bound -> (q == inject_Z z)%Q -> (fl q == inject_Z z)%Q.
Proof.
  intros Hz H. rewrite (fl_eq _ _ H). destruct Hfl as (_ & He). now apply He.
Qed.

Lemma fl_le_int (q : Q) (z : Z) :
  - bound <= z <= bound -> (q <= inject_Z z)%Q -> (fl q <= inject_Z z)%Q.
Proof.
  intros Hz H. rewrite <- (fl_int (inject_Z z) z Hz (Qeq_refl _)).
  destruct Hfl as (Hm & _). now apply Hm.
Qed.

Lemma fl_ge_int (q : Q) (z : Z) :
  - bound <= z <= bound -> (inject_Z z <= q)%Q -> (inject_Z z <= fl q)%Q.
Proof.
  intros Hz H. rewrite <- (fl_int (inject_Z z) z Hz (Qeq_refl _)).
  destruct Hfl as (Hm & _). now apply Hm.
Qed.

(** A number of the format below a rounded value is below the value. *)
Lemma exact_lt_fl (a q : Q) : exact fl a -> (a < fl q)%Q -> (a < q)%Q.
Proof.
  intros Ha H. apply Qnot_le_lt. intro Hle.
  destruct Hfl as (Hm & _). pose proof (Hm _ _ Hle) as H1.
  unfold exact in Ha. rewrite Ha in H1. lra.
Qed.

Lemma of_int_exact (z : Z) : - bound <= z <= bound -> (of_int fl z == inject_Z z)%Q.
Proof. intro Hz. unfold of_int. now apply fl_int. Qed.

(** ** InitTrackerData *)

Lemma guard_accepted (data : Mat pixel) (mark : Mark) :
  Qltb (fx (center mark)) (radius mark)
  || Qleb (fl (of_int fl (cols data) - radius mark)%Q) (fx (center mark))
  || Qltb (fy (center mark)) (radius mark)
  || Qleb (fl (of_int fl (rows data) - radius mark)%Q) (fy (center mark)) = false
  <-> accepted fl data mark.
Proof.
  unfold accepted.
  rewrite !orb_false_iff, !Qltb_false, !Qleb_false. tauto.
Qed.

(** [InitTrackerData] on a circle mark: the guard, then the crop. *)
Lemma InitTrackerData_circle (data_ : TemplateData) (data : Mat pixel) (mark : Mark) :
  type mark = kCircle ->
  (accepted fl data mark ->
   InitTrackerData fl data_ data mark
   = (patch <- Mat_roi data (patch_rect fl mark) ;;
      Ok (true, mkTemplateData patch (radius mark)))) /\
  (~ accepted fl data mark -> InitTrackerData fl data_ data mark = Ok (false, data_)).
Proof.
  intro Ht. unfold InitTrackerData. rewrite Ht. simpl.
  destruct (Qltb (fx (center mark)) (radius mark)
            || Qleb (fl (of_int fl (cols data) - radius mark)%Q) (fx (center mark))
            || Qltb (fy (center mark)) (radius mark)
            || Qleb (fl (of_int fl (rows data) - radius mark)%Q) (fy (center mark))) eqn:G.
  - split; [| reflexivity]. intro Ha. apply guard_accepted in Ha. congruence.
  - split; [reflexivity |]. intro Hn. exfalso. apply Hn. now apply guard_accepted.
Qed.

(** What a successful [InitTrackerData] has checked and stored. *)
Lemma InitTrackerData_true (data_ tpl : TemplateData) (data : Mat pixel) (mark : Mark) :
  type mark = kCircle ->
  InitTrackerData fl data_ data mark = Ok (true, tpl) ->
  accepted fl data mark /\ roi_fits data (patch_rect fl mark) = true /\
  tpl = mkTemplateData (patch_of fl data mark) (radius mark).
Proof.
  intros Ht. unfold InitTrackerData. rewrite Ht. simpl.
  destruct (Qltb (fx (center mark)) (radius mark)
            || Qleb (fl (of_int fl (cols data) - radius mark)%Q) (fx (center mark))
            || Qltb (fy (center mark)) (radius mark)
            || Qleb (fl (of_int fl (rows data) - radius mark)%Q) (fy (center mark))) eqn:G.
  - discriminate.
  - apply guard_accepted in G. fold (patch_rect fl mark). unfold Mat_roi.
    destruct (roi_fits data (patch_rect fl mark)); [| discriminate].
    simpl. intro H. injection H as <-. split; [exact G |]. split; reflexivity.
Qed.

(** The guard as evaluated implies the inequalities on the differences
    themselves, when the centre is a number of the format. *)
Lemma accepted_inside (data : Mat pixel) (mark : Mark) :
  0 <= rows data <= bound -> 0 <= cols data <= bound ->
  exact fl (fx (center mark)) -> exact fl (fy (center mark)) ->
  accepted fl data mark -> inside data mark.
Proof.
  intros Hr Hc Ex Ey (Hx1 & Hx2 & Hy1 & Hy2).
  apply (exact_lt_fl _ _ Ex) in Hx2. apply (exact_lt_fl _ _ Ey) in Hy2.
  rewrite of_int_exact in Hx2 by lia. rewrite of_int_exact in Hy2 by lia.
  unfold inside. tauto.
Qed.

(** Conversely, when the two differences are numbers of the format. *)
Lemma inside_accepted (data : Mat pixel) (mark : Mark) :
  0 <= rows data <= bound -> 0 <= cols data <= bound ->
  exact fl (inject_Z (cols data) - radius mark) ->
  exact fl (inject_Z (rows data) - radius mark) ->
  inside data mark -> accepted fl data mark.
Proof.
  intros Hr Hc Ex Ey (Hx1 & Hx2 & Hy1 & Hy2). unfold exact in Ex, Ey.
  assert (Fx : (fl (of_int fl (cols data) - radius mark)%Q
                == inject_Z (cols data) - radius mark)%Q).
  { transitivity (fl (inject_Z (cols data) - radius mark)); [| exact Ex].
    apply fl_eq. rewrite of_int_exact by lia. reflexivity. }
  assert (Fy : (fl (of_int fl (rows data) - radius mark)%Q
                == inject_Z (rows data) - radius mark)%Q).
  { transitivity (fl (inject_Z (rows data) - radius mark)); [| exact Ey].
    apply fl_eq. rewrite of_int_exact by lia. reflexivity. }
  unfold accepted. rewrite Fx, Fy. tauto.
Qed.

(** One coordinate of the crop: a corner [trunc (fl (c - r))] and a side
    [trunc (fl (2 r))] for a centre [c] with [r <= c < n - r]. *)
Lemma crop_coordinate (c r : Q) (n : Z) :
  0 <= n <= bound -> (0 <= r)%Q -> exact fl (2 * r) ->
  (r <= c)%Q -> (c < inject_Z n - r)%Q ->
  0 <= trunc (fl (c - r)) /\
  trunc (fl (2 * r)) = trunc (2 * r) /\
  0 <= trunc (fl (2 * r)) < n /\
  trunc (fl (c - r)) + trunc (fl (2 * r)) <= n /\
  (inject_Z (trunc (fl (c - r))) < c - r + 1)%Q /\
  (c - r - 1 < inject_Z (trunc (fl (c - r))))%Q.
Proof.
  intros Hn Hr E2 H1 H2. unfold exact in E2.
  assert (H2r : (0 <= 2 * r)%Q) by lra.
  assert (Hside : trunc (fl (2 * r)) = trunc (2 * r)).
  { apply trunc_eq; [rewrite E2; exact H2r | exact E2]. }
  pose proof (trunc_nonneg _ H2r) as S0. pose proof (trunc_le _ H2r) as S1.
  set (side := trunc (2 * r)) in *.
  assert (Sn : side < n) by (rewrite Zlt_Qlt; lra).
  assert (Hd : (0 <= c - r)%Q) by lra.
  assert (F0 : (0 <= fl (c - r))%Q).
  { change 0%Q with (inject_Z 0). apply fl_ge_int; [lia | exact Hd]. }
  pose proof (trunc_nonneg _ F0) as T0.
  (* the corner lies between the integers around c - r *)
  pose proof (trunc_nonneg _ Hd) as D0.
  pose proof (trunc_le _ Hd) as D1. pose proof (trunc_gt _ Hd) as D2.
  set (k := trunc (c - r)) in *.
  assert (Kn : k + side < n).
  { rewrite Zlt_Qlt, inject_Z_plus. lra. }
  assert (Flo : (inject_Z k <= fl (c - r))%Q) by (apply fl_ge_int; [lia | exact D1]).
  assert (Fhi : (fl (c - r) <= inject_Z (k + 1))%Q).
  { apply fl_le_int; [lia | apply Qlt_le_weak; exact D2]. }
  assert (Tlo : k <= trunc (fl (c - r))).
  { rewrite <- (trunc_inject_Z k). apply trunc_mono; [| exact Flo].
    change 0%Q with (inject_Z 0). rewrite <- Zle_Qle. lia. }
  assert (Thi : trunc (fl (c - r)) <= k + 1).
  { rewrite <- (trunc_inject_Z (k + 1)). apply trunc_mono; [exact F0 | exact Fhi]. }
  rewrite Hside. split; [exact T0 |]. split; [reflexivity |]. split; [lia |].
  split; [lia |].
  assert (Q1 : (inject_Z (trunc (fl (c - r))) <= inject_Z (k + 1))%Q)
    by (rewrite <- Zle_Qle; exact Thi).
  assert (Q2 : (inject_Z k <= inject_Z (trunc (fl (c - r))))%Q)
    by (rewrite <- Zle_Qle; exact Tlo).
  rewrite inject_Z_plus in Q1, D2. change (inject_Z 1) with 1%Q in Q1, D2.
  split.
  - (* trunc (fl (c - r)) <= k + 1 would only give <= : the value k + 1 is
       reached only by rounding up, and then c - r > k *)
    destruct (Z.eq_dec (trunc (fl (c - r))) (k + 1)) as [E | E].
    + rewrite E, inject_Z_plus. change (inject_Z 1) with 1%Q.
      destruct (Qlt_le_dec (inject_Z k) (c - r)) as [L | L]; [lra |].
      exfalso. assert (Ek : (c - r == inject_Z k)%Q) by lra.
      assert (Hk : - bound <= k <= bound) by lia.
      pose proof (fl_int _ _ Hk Ek) as Ef.
      pose proof (trunc_eq_int _ _ Ef). lia.
    + assert (trunc (fl (c - r)) <= k) by lia.
      assert ((inject_Z (trunc (fl (c - r))) <= inject_Z k)%Q) by (rewrite <- Zle_Qle; lia).
      lra.
  - lra.
Qed.

(** The crop of a circle of radius >= 0 inside the image lies in the image,
    and its side is less than the image's. *)
Lemma inside_patch (data : Mat pixel) (mark : Mark) :
  0 <= rows data <= bound -> 0 <= cols data <= bound ->
  (0 <= radius mark)%Q -> exact fl (2 * radius mark) ->
  inside data mark ->
  0 <= x (patch_rect fl mark) /\ 0 <= y (patch_rect fl mark) /\
  0 <= width (patch_rect fl mark) /\
  width (patch_rect fl mark) = trunc (2 * radius mark) /\
  x (patch_rect fl mark) + width (patch_rect fl mark) <= cols data /\
  y (patch_rect fl mark) + height (patch_rect fl mark) <= rows data /\
  width (patch_rect fl mark) < cols data /\
  height (patch_rect fl mark) < rows data.
Proof.
  intros Hr Hc Hrad E2 (Hx1 & Hx2 & Hy1 & Hy2).
  destruct (crop_coordinate _ _ _ Hc Hrad E2 Hx1 Hx2) as (X0 & XS & XW & XF & _).
  destruct (crop_coordinate _ _ _ Hr Hrad E2 Hy1 Hy2) as (Y0 & _ & YW & YF & _).
  unfold patch_rect. cbn [x y width height]. repeat split; lia.
Qed.


Lemma inside_fits (data : Mat pixel) (mark : Mark) :
  0 <= rows data <= bound -> 0 <= cols data <= bound ->
  (0 <= radius mark)%Q -> exact fl (2 * radius mark) ->
  inside data mark -> roi_fits data (patch_rect fl mark) = true.
Proof.
  intros Hr Hc Hrad E2 Hin.
  destruct (inside_patch data mark Hr Hc Hrad E2 Hin)
    as (X0 & Y0 & W0 & _ & XF & YF & _).
  unfold roi_fits. unfold patch_rect in *. cbn [x y width height] in *.
  rewrite !andb_true_iff, !Z.leb_le. lia.
Qed.

(** An accepted circle whose crop fits is stored. *)
Lemma InitTrackerData_stores (data_ : TemplateData) (data : Mat pixel) (mark : Mark) :
  type mark = kCircle -> accepted fl data mark ->
  roi_fits data (patch_rect fl mark) = true ->
  InitTrackerData fl data_ data mark
  = Ok (true, mkTemplateData (patch_of fl data mark) (radius mark)).
Proof.
  intros Ht Ha Hf.
  rewrite (proj1 (InitTrackerData_circle data_ data mark Ht) Ha).
  unfold Mat_roi. rewrite Hf. reflexivity.
Qed.

(** A circle with integer centre and radius. *)
Lemma integer_mark (data : Mat pixel) (mark : Mark) (cx cy r : Z) :
  0 <= rows data <= bound -> 0 <= cols data <= bound ->
  center mark = mkPoint2 (inject_Z cx) (inject_Z cy) -> radius mark = inject_Z r ->
  0 <= r ->
  r <= Z.min (Z.min cx cy) (Z.min (cols data - 1 - cx) (rows data - 1 - cy)) ->
  accepted fl data mark /\
  patch_rect fl mark = mkRect (cx - r) (cy - r) (2 * r) (2 * r).
Proof.
  intros Hr Hc Ec Er Hr0 Hmin.
  assert (Fx : (fl (of_int fl (cols data) - inject_Z r) == inject_Z (cols data - r))%Q).
  { apply fl_int; [lia |]. rewrite of_int_exact by lia.
    unfold Qminus. now rewrite <- inject_Z_opp, <- inject_Z_plus. }
  assert (Fy : (fl (of_int fl (rows data) - inject_Z r) == inject_Z (rows data - r))%Q).
  { apply fl_int; [lia |]. rewrite of_int_exact by lia.
    unfold Qminus. now rewrite <- inject_Z_opp, <- inject_Z_plus. }
  split.
  - unfold accepted. rewrite Ec, Er. cbn [fx fy]. rewrite Fx, Fy.
    rewrite <- !Zle_Qle, <- !Zlt_Qlt. lia.
  - unfold patch_rect. rewrite Ec, Er. cbn [fx fy].
    rewrite (trunc_eq_int (fl (inject_Z cx - inject_Z r)) (cx - r)).
    2:{ apply fl_int; [lia |]. unfold Qminus. now rewrite <- inject_Z_opp, <- inject_Z_plus. }
    rewrite (trunc_eq_int (fl (inject_Z cy - inject_Z r)) (cy - r)).
    2:{ apply fl_int; [lia |]. unfold Qminus. now rewrite <- inject_Z_opp, <- inject_Z_plus. }
    rewrite (trunc_eq_int (fl (2 * inject_Z r)) (2 * r)).
    2:{ apply fl_int; [lia |]. change 2%Q with (inject_Z 2). now rewrite <- inject_Z_mult. }
    reflexivity.
Qed.

Lemma inside_integer (data : Mat pixel) (mark : Mark) (cx cy r : Z) :
  center mark = mkPoint2 (inject_Z cx) (inject_Z cy) -> radius mark = inject_Z r ->
  inside data mark
  <-> r <= Z.min (Z.min cx cy) (Z.min (cols data - 1 - cx) (rows data - 1 - cy)).
Proof.
  intros Ec Er. unfold inside. rewrite Ec, Er. cbn [fx fy].
  unfold Qminus. rewrite <- !inject_Z_opp, <- !inject_Z_plus.
  rewrite <- !Zle_Qle, <- !Zlt_Qlt. lia.
Qed.

(** [InitTrackerData] accepts it and stores the square of side 2 r around
    the centre. *)
Lemma InitTrackerData_integer (data_ : TemplateData) (data : Mat pixel) (cx cy r : Z) :
  0 <= rows data <= bound -> 0 <= cols data <= bound -> 0 <= r ->
  r <= Z.min (Z.min cx cy) (Z.min (cols data - 1 - cx) (rows data - 1 - cy)) ->
  InitTrackerData fl data_ data (circle (inject_Z cx) (inject_Z cy) (inject_Z r))
  = Ok (true, mkTemplateData (view data (mkRect (cx - r) (cy - r) (2 * r) (2 * r)))
                             (inject_Z r)).
Proof.
  intros Hr Hc Hr0 Hmin.
  destruct (integer_mark data (circle (inject_Z cx) (inject_Z cy) (inject_Z r)) cx cy r
              Hr Hc eq_refl eq_refl Hr0 Hmin) as (Ha & Hp).
  rewrite (InitTrackerData_stores data_ data
             (circle (inject_Z cx) (inject_Z cy) (inject_Z r)) eq_refl Ha).
  - unfold patch_of. rewrite Hp. reflexivity.
  - rewrite Hp. unfold roi_fits. cbn [x y width height].
    rewrite !andb_true_iff, !Z.leb_le. lia.
Qed.

End Rounding.

(** C1, as stated, fails for a centre between two pixels: in a 100x100 image
    the circle at (50.5, 50) of radius 49 passes the guard (50.5 < 100 - 49,
    a difference of integers, which no rounding changes) and its crop, of
    side 98 at column 1 or 2 and row 1, fits the image, although
    49 > 100 - 1 - 50.5. *)
Lemma InitTrackerData_min_bound_counterexample :
  (forall fl : Q -> Q, rounding fl 100 ->
     Init_succeeds fl no_template (blank 100 100) (circle (101 # 2) 50 49)) /\
  ~ min_bound (blank 100 100) (circle (101 # 2) 50 49).
Proof.
  split.
  - intros fl Hfl. eexists.
    assert (E2 : exact fl (2 * radius (circle (101 # 2) 50 49))).
    { unfold exact. rewrite (fl_int fl 100 Hfl _ 98); [reflexivity | lia | reflexivity]. }
    assert (Hin : inside (blank 100 100) (circle (101 # 2) 50 49)).
    { unfold inside, Qle, Qlt; simpl; lia. }
    apply (InitTrackerData_stores fl).
    + reflexivity.
    + unfold accepted. cbn [circle center radius fx fy blank rows cols].
      assert (F : (fl (of_int fl 100 - 49) == 51)%Q).
      { apply (fl_int fl 100 Hfl _ 51); [lia |].
        rewrite (of_int_exact fl 100 Hfl) by lia. reflexivity. }
      rewrite F. unfold Qle, Qlt; simpl; lia.
    + apply (inside_fits fl 100 Hfl); try (cbn; lia); try assumption.
      unfold Qle; simpl; lia.
  - intros (_ & _ & Hb & _). revert Hb. unfold Qle; simpl. lia.
Qed.

(** C1 (amended).  [fl] rounds the result of a floating operation and keeps
    the integers up to the size of the image; the centre and twice the
    radius of the mark are numbers of the format.  For a circle mark of
    radius >= 0, [InitTrackerData] returns true exactly when
    radius <= center.x < fl(width - radius) and
    radius <= center.y < fl(height - radius), the differences as rounded;
    then the stored template is the patch of side trunc(2 radius) whose
    top-left corner is (trunc(fl(center.x - radius)),
    trunc(fl(center.y - radius))), kept with the radius.  Otherwise it
    returns false and the tracker's data is left as it was.  A mark that is
    accepted satisfies radius <= center.x < width - radius and
    radius <= center.y < height - radius, and a mark that satisfies these is
    accepted when the two differences are numbers of the format.  For a mark
    with integer centre and radius the condition is
    radius <= min(center.x, center.y, width-1-center.x, height-1-center.y)
    and the patch is the square of side 2 radius around the centre. *)
Theorem InitTrackerData_bounds (fl : Q -> Q) (bound : Z) (data_ : TemplateData)
        (data : Mat pixel) (mark : Mark) :
  rounding fl bound -> 0 <= rows data <= bound -> 0 <= cols data <= bound ->
  type mark = kCircle -> (0 <= radius mark)%Q ->
  exact fl (fx (center mark)) -> exact fl (fy (center mark)) ->
  exact fl (2 * radius mark) ->
  (accepted fl data mark ->
   InitTrackerData fl data_ data mark
   = Ok (true, mkTemplateData (patch_of fl data mark) (radius mark))) /\
  (~ accepted fl data mark -> InitTrackerData fl data_ data mark = Ok (false, data_)) /\
  (accepted fl data mark -> inside data mark) /\
  (inside data mark ->
   exact fl (inject_Z (cols data) - radius mark) ->
   exact fl (inject_Z (rows data) - radius mark) -> accepted fl data mark) /\
  (forall cx cy r : Z,
      center mark = mkPoint2 (inject_Z cx) (inject_Z cy) -> radius mark = inject_Z r ->
      (accepted fl data mark
       <-> r <= Z.min (Z.min cx cy) (Z.min (cols data - 1 - cx) (rows data - 1 - cy))) /\
      (accepted fl data mark ->
       patch_rect fl mark = mkRect (cx - r) (cy - r) (2 * r) (2 * r))).
Proof.
  intros Hfl Hr Hc Ht Hrad Ex Ey E2.
  split; [| split; [| split; [| split]]].
  - intro Ha. apply (InitTrackerData_stores fl _ _ _ Ht Ha).
    apply (inside_fits fl bound Hfl _ _ Hr Hc Hrad E2).
    exact (accepted_inside fl bound Hfl data mark Hr Hc Ex Ey Ha).
  - exact (proj2 (InitTrackerData_circle fl data_ data mark Ht)).
  - exact (accepted_inside fl bound Hfl data mark Hr Hc Ex Ey).
  - intros Hin Dx Dy. exact (inside_accepted fl bound Hfl data mark Hr Hc Dx Dy Hin).
  - intros cx cy r Ec Er.
    assert (Hr0 : 0 <= r) by (rewrite Er in Hrad; now rewrite Zle_Qle).
    assert (Hmin : accepted fl data mark ->
                   r <= Z.min (Z.min cx cy) (Z.min (cols data - 1 - cx) (rows data - 1 - cy))).
    { intro Ha. apply (inside_integer data mark cx cy r Ec Er).
      exact (accepted_inside fl bound Hfl data mark Hr Hc Ex Ey Ha). }
    split; [split |].
    + exact Hmin.
    + intro H. exact (proj1 (integer_mark fl bound Hfl data mark cx cy r Hr Hc Ec Er Hr0 H)).
    + intro Ha.
      exact (proj2 (integer_mark fl bound Hfl data mark cx cy r Hr Hc Ec Er Hr0 (Hmin Ha))).
Qed.

(** Scenario A: image 100x100, circle at (50,50) with radius 10: the
    initialization succeeds and the template is 20x20.  Scenario B: the
    circle at (5,5) with radius 10 is refused. *)
Lemma InitTrackerData_bounds_witness :
  (exists tpl, InitTrackerData no_rounding no_template (blank 100 100) (circle 50 50 10)
               = Ok (true, tpl)
               /\ rows (search_template tpl) = 20 /\ cols (search_template tpl) = 20) /\
  InitTrackerData no_rounding no_template (blank 100 100) (circle 5 5 10)
  = Ok (false, no_template).
Proof.
  split.
  - eexists. split.
    + apply (InitTrackerData_bounds no_rounding 100 no_template (blank 100 100)
               (circle 50 50 10) (no_rounding_rounding 100));
        try (cbn; lia); try reflexivity.
      * unfold Qle; simpl; lia.
      * unfold accepted, Qle, Qlt; simpl; lia.
    + split; reflexivity.
  - apply (InitTrackerData_bounds no_rounding 100 no_template (blank 100 100)
             (circle 5 5 10) (no_rounding_rounding 100));
      try (cbn; lia); try reflexivity.
    + unfold Qle; simpl; lia.
    + unfold accepted, Qle, Qlt; simpl; lia.
Defined.

(** ** Application: the pool of providers *)

Lemma owned_app (s1 s2 : list (option VideoProvider)) :
  owned (s1 ++ s2) = owned s1 ++ owned s2.
Proof. unfold owned. apply flat_map_app. Qed.

Lemma release_None (provider : VideoProvider) (slots : list (option VideoProvider)) :
  release provider slots = None <-> ~ In provider (owned slots).
Proof.
  induction slots as [| [p |] rest IH]; simpl.
  - tauto.
  - destruct (Z.eqb_spec p provider) as [-> | Hne].
    + split; [discriminate | intro H; exfalso; apply H; now left].
    + destruct (release provider rest); simpl.
      * split; [discriminate |]. intro H. exfalso.
        assert (K : ~ In provider (owned rest)) by tauto.
        apply IH in K. discriminate.
      * split; [| reflexivity]. intros _ [E | K]; [congruence |].
        revert K. apply IH. reflexivity.
  - destruct (release provider rest); simpl.
    + split; [discriminate |]. intro H. apply IH in H. discriminate.
    + split; [| reflexivity]. intros _. apply IH. reflexivity.
Qed.

(** Releasing a provider keeps every other provider owned, and owns nothing new. *)
Lemma release_Some (provider : VideoProvider) (slots slots' : list (option VideoProvider)) :
  release provider slots = Some slots' ->
  In provider (owned slots) /\
  (forall q, In q (owned slots') -> In q (owned slots)) /\
  (forall q, q <> provider -> In q (owned slots) -> In q (owned slots')).
Proof.
  revert slots'. induction slots as [| [p |] rest IH]; simpl; intros slots' H.
  - discriminate.
  - destruct (Z.eqb_spec p provider) as [-> | Hne].
    + injection H as <-. simpl. split; [now left |]. split.
      * intros q Hq. now right.
      * intros q Hq [E | K]; [congruence | exact K].
    + destruct (release provider rest) as [r |] eqn:E; simpl in H; [| discriminate].
      injection H as <-. destruct (IH r eq_refl) as (I1 & I2 & I3). simpl.
      split; [now right |]. split.
      * intros q [Eq | K]; [now left | right; now apply I2].
      * intros q Hq [Eq | K]; [now left | right; now apply I3].
  - destruct (release provider rest) as [r |] eqn:E; simpl in H; [| discriminate].
    injection H as <-. destruct (IH r eq_refl) as (I1 & I2 & I3). simpl.
    split; [exact I1 |]. split; assumption.
Qed.

Lemma move_providers_Ok (providers : list VideoProvider) :
  forall slots used slots' used',
    move_providers providers slots used = Ok (slots', used') ->
    used' = used ++ providers /\
    (forall p, In p providers -> In p (owned slots)) /\
    (forall q, In q (owned slots') -> In q (owned slots)) /\
    (forall q, ~ In q providers -> In q (owned slots) -> In q (owned slots')).
Proof.
  induction providers as [| p rest IH]; simpl; intros slots used slots' used' H.
  - injection H as <- <-. rewrite app_nil_r. tauto.
  - destruct (release p slots) as [s1 |] eqn:E; [| discriminate].
    destruct (release_Some _ _ _ E) as (R1 & R2 & R3).
    destruct (IH _ _ _ _ H) as (I1 & I2 & I3 & I4).
    split; [rewrite I1, <- app_assoc; reflexivity |]. split; [| split].
    + intros q [<- | Hq]; [exact R1 | apply R2, I2, Hq].
    + intros q Hq. apply R2, I3, Hq.
    + intros q Hn Hq. apply I4; [tauto |]. apply R3; [| exact Hq].
      intro Eq. apply Hn. now left.
Qed.

(** A provider that the pool does not own stops the transfer. *)
Lemma move_providers_missing (providers : list VideoProvider) :
  forall slots used,
    (exists p, In p providers /\ ~ In p (owned slots)) ->
    move_providers providers slots used = Abort AssertFailed.
Proof.
  induction providers as [| p rest IH]; simpl; intros slots used (q & Hq & Hn).
  - contradiction.
  - destruct (release p slots) as [s1 |] eqn:E; [| reflexivity].
    destruct (release_Some _ _ _ E) as (R1 & R2 & R3).
    apply IH. exists q. split.
    + destruct Hq as [<- | Hq]; [contradiction | exact Hq].
    + intro K. apply Hn, R2, K.
Qed.

(** Distinct providers that the pool owns are all transferred. *)
Lemma move_providers_total (providers : list VideoProvider) :
  forall slots used,
    NoDup providers -> (forall p, In p providers -> In p (owned slots)) ->
    exists slots', move_providers providers slots used = Ok (slots', used ++ providers).
Proof.
  induction providers as [| p rest IH]; simpl; intros slots used Hnd Hin.
  - exists slots. rewrite app_nil_r. reflexivity.
  - inversion Hnd as [| ? ? Hp Hrest]; subst.
    destruct (release p slots) as [s1 |] eqn:E.
    + destruct (release_Some _ _ _ E) as (R1 & R2 & R3).
      destruct (IH s1 (used ++ [p]) Hrest) as (s2 & Hs2).
      * intros q Hq. apply R3; [| apply Hin; now right].
        intro Eq. subst q. contradiction.
      * exists s2. rewrite Hs2, <- app_assoc. reflexivity.
    + exfalso. apply release_None in E. apply E, Hin. now left.
Qed.

(** What a completed [Initialize] leaves behind. *)
Lemma Initialize_Ok (providers : list VideoProvider) (app app' : Application) :
  Initialize providers app = Ok app' ->
  exists slots,
    move_providers providers (available_providers_ app) [] = Ok (slots, providers) /\
    providers <> [] /\
    arity_ app' = Z.of_nat (length providers) /\
    available_providers_ app' = [] /\
    controller_ app' = Some (mkController providers (Z.of_nat (length providers))) /\
    converter_ app' = Some (mkFramesetConverter (Z.of_nat (length providers))) /\
    calibration_data_ app' = calibration_data_ app /\
    exists rest,
      events app' = events app ++ map Delete (owned slots) ++ rest /\
      In (Connect Application_CalibrationDataReady_Controller_SetCalibrationData) rest /\
      (forall p, ~ In (Delete p) rest).
Proof.
  unfold Initialize. intro H.
  destruct (move_providers providers (available_providers_ app) [])
    as [[slots used] | f] eqn:E; simpl in H; [| discriminate].
  destruct (move_providers_Ok _ _ _ _ _ E) as (Hu & _). simpl in Hu. subst used.
  exists slots. split; [reflexivity |].
  unfold SetupController in H. simpl in H.
  destruct providers as [| p ps]; [discriminate |].
  split; [discriminate |].
  simpl in H. injection H as <-. simpl.
  repeat (split; [reflexivity |]).
  eexists. split.
  - rewrite <- !app_assoc. reflexivity.
  - split.
    + simpl. right. left. reflexivity.
    + intros q Hq. simpl in Hq.
      destruct (controller_ app); destruct (converter_ app); simpl in Hq;
        repeat (destruct Hq as [Hq | Hq]; [discriminate |]); contradiction.
Qed.

Lemma Initialize_total (providers : list VideoProvider) (app : Application) :
  providers <> [] -> NoDup providers ->
  (forall p, In p providers -> In p (owned (available_providers_ app))) ->
  exists app', Initialize providers app = Ok app'.
Proof.
  intros Hne Hnd Hin.
  destruct (move_providers_total providers (available_providers_ app) [] Hnd Hin)
    as (slots & Hs).
  unfold Initialize. rewrite Hs. simpl.
  destruct providers as [| p ps]; [contradiction |].
  unfold SetupController. simpl. eexists. reflexivity.
Qed.

Lemma release_NoDup (provider : VideoProvider) (slots slots' : list (option VideoProvider)) :
  NoDup (owned slots) -> release provider slots = Some slots' ->
  NoDup (owned slots') /\ ~ In provider (owned slots').
Proof.
  revert slots'. induction slots as [| [p |] rest IH]; simpl; intros slots' Hnd H.
  - discriminate.
  - inversion Hnd as [| ? ? Hp Hrest]; subst.
    destruct (Z.eqb_spec p provider) as [-> | Hne].
    + injection H as <-. simpl. split; assumption.
    + destruct (release provider rest) as [r |] eqn:E; simpl in H; [| discriminate].
      injection H as <-. destruct (IH r Hrest eq_refl) as (I1 & I2).
      destruct (release_Some _ _ _ E) as (_ & R2 & _). simpl. split.
      * constructor; [| exact I1]. intro K. apply Hp, R2, K.
      * intros [Eq | K]; [congruence | contradiction].
  - destruct (release provider rest) as [r |] eqn:E; simpl in H; [| discriminate].
    injection H as <-. simpl. apply (IH r Hnd eq_refl).
Qed.

Lemma move_providers_NoDup (providers : list VideoProvider) :
  forall slots used slots' used',
    NoDup (owned slots) ->
    move_providers providers slots used = Ok (slots', used') ->
    NoDup (owned slots') /\ (forall p, In p providers -> ~ In p (owned slots')).
Proof.
  induction providers as [| p rest IH]; simpl; intros slots used slots' used' Hnd H.
  - injection H as <- <-. split; [exact Hnd | tauto].
  - destruct (release p slots) as [s1 |] eqn:E; [| discriminate].
    destruct (release_NoDup _ _ _ Hnd E) as (N1 & N2).
    destruct (IH _ _ _ _ N1 H) as (I1 & I2).
    destruct (move_providers_Ok _ _ _ _ _ H) as (_ & _ & M3 & _).
    split; [exact I1 |].
    intros q [<- | Hq]; [| now apply I2].
    intro K. apply N2, M3, K.
Qed.

(** C10.  When [Initialize] completes, the pool of available providers is
    empty, the new controller holds exactly the chosen providers, every
    chosen provider was owned by the pool, and every provider the pool owned
    that was not chosen has been deleted; a chosen provider is not deleted
    (the pool owning each provider once).  Choosing a provider the pool does
    not own fails the assertion.  Distinct providers of the pool, at least
    one, are always accepted. *)
Theorem Initialize_empties_pool (providers : list VideoProvider) (app : Application) :
  (forall app', Initialize providers app = Ok app' ->
     available_providers_ app' = [] /\
     controller_ app' = Some (mkController providers (Z.of_nat (length providers))) /\
     (forall p, In p providers -> In p (owned (available_providers_ app))) /\
     exists done,
       events app' = events app ++ done /\
       (forall q, In q (owned (available_providers_ app)) -> ~ In q providers ->
                  In (Delete q) done) /\
       (NoDup (owned (available_providers_ app)) ->
        forall p, In p providers -> ~ In (Delete p) done)) /\
  ((exists p, In p providers /\ ~ In p (owned (available_providers_ app))) ->
   Initialize providers app = Abort AssertFailed) /\
  (providers <> [] -> NoDup providers ->
   (forall p, In p providers -> In p (owned (available_providers_ app))) ->
   exists app', Initialize providers app = Ok app').
Proof.
  split; [| split].
  - intros app' H.
    destruct (Initialize_Ok _ _ _ H)
      as (slots & Hm & _ & _ & Hav & Hc & _ & _ & rest & Hev & _ & Hrest).
    destruct (move_providers_Ok _ _ _ _ _ Hm) as (_ & M2 & M3 & M4).
    split; [exact Hav |]. split; [exact Hc |]. split; [exact M2 |].
    exists (map Delete (owned slots) ++ rest). split; [exact Hev |]. split.
    + intros q Hq Hn. apply in_or_app. left. apply in_map. now apply M4.
    + intros Hnd p Hp K. apply in_app_or in K. destruct K as [K | K].
      * apply in_map_iff in K. destruct K as (q & Eq & Hq). injection Eq as ->.
        destruct (move_providers_NoDup _ _ _ _ _ Hnd Hm) as (_ & N).
        exact (N p Hp Hq).
      * exact (Hrest p K).
  - intro Hmiss. unfold Initialize.
    rewrite (move_providers_missing providers _ [] Hmiss). reflexivity.
  - apply Initialize_total.
Qed.

(** Cameras 0 and 2 chosen from a pool of cameras 0, 1, 2: the pool ends
    empty and camera 1 is deleted; choosing camera 5 is refused. *)
Lemma Initialize_empties_pool_witness :
  (exists app', Initialize [0; 2] three_cameras = Ok app' /\
                available_providers_ app' = [] /\ In (Delete 1) (events app')) /\
  Initialize [0; 5] three_cameras = Abort AssertFailed.
Proof.
  split.
  - destruct (proj2 (proj2 (Initialize_empties_pool [0; 2] three_cameras)))
      as (app' & H).
    + discriminate.
    + repeat constructor; simpl; intuition discriminate.
    + simpl. intuition.
    + exists app'. split; [exact H |].
      destruct (proj1 (Initialize_empties_pool [0; 2] three_cameras) app' H)
        as (Hav & _ & _ & done & Hev & Hdel & _).
      split; [exact Hav |]. rewrite Hev. apply in_or_app. right.
      apply Hdel; simpl; intuition discriminate.
  - apply (proj1 (proj2 (Initialize_empties_pool [0; 5] three_cameras))).
    exists 5. simpl. split; [tauto | intuition discriminate].
Defined.

(** ** Application: discovery *)

Lemma devices_S (first : Z) (count : nat) :
  devices first (S count) = first :: devices (first + 1) count.
Proof.
  unfold devices. simpl. rewrite Z.add_0_r. f_equal.
  rewrite <- seq_shift, map_map. apply map_ext. intro i. lia.
Qed.

Lemma devices_1 (first : Z) : devices first 1 = [first].
Proof. unfold devices. simpl. rewrite Z.add_0_r. reflexivity. Qed.

Lemma misses_S_working (working : Z -> bool) (first : Z) (count : nat) :
  working first = true ->
  misses working first (S count) = misses working (first + 1) count.
Proof.
  intro H. unfold misses. rewrite devices_S. cbn [filter]. unfold broken at 1.
  rewrite H. reflexivity.
Qed.

Lemma misses_S_broken (working : Z -> bool) (first : Z) (count : nat) :
  working first = false ->
  misses working first (S count) = 1 + misses working (first + 1) count.
Proof.
  intro H. unfold misses. rewrite devices_S. cbn [filter]. unfold broken at 1.
  rewrite H. cbn [negb length]. lia.
Qed.

Lemma misses_nonneg (working : Z -> bool) (first : Z) (count : nat) :
  0 <= misses working first count.
Proof. unfold misses. lia. Qed.

Lemma probed_one_working (working : Z -> bool) (device : Z) (app : Application) :
  working device = true -> probed working device 1 app (push_back device app).
Proof.
  intro H. unfold probed, devices, broken. simpl. rewrite Z.add_0_r, H. simpl.
  rewrite app_nil_r. repeat split; reflexivity.
Qed.

Lemma probed_one_broken (working : Z -> bool) (device : Z) (app : Application) :
  working device = false -> probed working device 1 app (log [Delete device] app).
Proof.
  intro H. unfold probed, devices, broken. simpl. rewrite Z.add_0_r, H. simpl.
  rewrite app_nil_r. repeat split; reflexivity.
Qed.

Lemma probed_step (working : Z -> bool) (device : Z) (count : nat)
      (app app1 app' : Application) :
  probed working device 1 app app1 -> probed working (device + 1) count app1 app' ->
  probed working device (S count) app app'.
Proof.
  unfold probed.
  intros (A1 & A2 & A3 & A4 & A5 & A6) (B1 & B2 & B3 & B4 & B5 & B6).
  rewrite devices_1 in A2, A6. rewrite devices_S.
  repeat split; try congruence.
  - rewrite B2, A2. simpl. destruct (working device); simpl.
    + rewrite <- app_assoc. reflexivity.
    + rewrite app_nil_r. reflexivity.
  - rewrite B6, A6. simpl. destruct (broken working device); simpl.
    + rewrite <- app_assoc. reflexivity.
    + rewrite app_nil_r. reflexivity.
Qed.

(** The scan loop ends, having probed [count >= 1] devices in a row: the
    misses before the last probe stay below [skip], and the loop stops
    because the misses reach [skip] or the next device is not below
    [tests]. *)
Lemma scan_devices_spec (working : Z -> bool) (skip tests : Z) :
  forall (fuel : nat) (device errors : Z) (app : Application),
    (1 <= fuel)%nat -> (Z.to_nat (tests - device) <= fuel)%nat -> errors < skip ->
    exists (count : nat) (app' : Application),
      scan_devices working fuel skip tests device errors app = Some app' /\
      (1 <= count)%nat /\
      probed working device count app app' /\
      errors + misses working device (count - 1) < skip /\
      (skip <= errors + misses working device count \/
       tests <= device + Z.of_nat count) /\
      (errors + misses working device count <= skip) /\
      ((1 < count)%nat -> device + Z.of_nat count <= tests).
Proof.
  induction fuel as [| fuel IH]; intros device errors app Hf1 Hf Herr; [lia |].
  simpl. destruct (working device) eqn:W.
  - destruct (Z.leb_spec tests (device + 1)) as [Ht | Ht].
    + exists 1%nat, (push_back device app).
      split; [reflexivity |]. split; [lia |].
      split; [now apply probed_one_working |].
      rewrite (misses_S_working working device 0 W). unfold misses; simpl.
      repeat split; try lia.
    + destruct (IH (device + 1) errors (push_back device app))
        as (count & app' & Hs & Hc & Hp & H1 & H2 & H3 & H4); try lia.
      exists (S count), app'. split; [exact Hs |]. split; [lia |].
      split; [eapply probed_step; [now apply probed_one_working | exact Hp] |].
      rewrite (misses_S_working working device count W).
      replace (S count - 1)%nat with (S (count - 1)) by lia.
      rewrite (misses_S_working working device (count - 1) W).
      repeat split; lia.
  - destruct (Z.leb_spec skip (errors + 1)) as [Hk | Hk].
    + exists 1%nat, (log [Delete device] app).
      split; [reflexivity |]. split; [lia |].
      split; [now apply probed_one_broken |].
      rewrite (misses_S_broken working device 0 W). unfold misses; simpl.
      repeat split; try lia.
    + destruct (Z.leb_spec tests (device + 1)) as [Ht | Ht].
      * exists 1%nat, (log [Delete device] app).
        split; [reflexivity |]. split; [lia |].
        split; [now apply probed_one_broken |].
        rewrite (misses_S_broken working device 0 W). unfold misses; simpl.
        repeat split; try lia.
      * destruct (IH (device + 1) (errors + 1) (log [Delete device] app))
          as (count & app' & Hs & Hc & Hp & H1 & H2 & H3 & H4); try lia.
        exists (S count), app'. split; [exact Hs |]. split; [lia |].
        split; [eapply probed_step; [now apply probed_one_broken | exact Hp] |].
        rewrite (misses_S_broken working device count W).
        replace (S count - 1)%nat with (S (count - 1)) by lia.
        rewrite (misses_S_broken working device (count - 1) W).
        repeat split; lia.
Qed.

Lemma owned_map_Some (l : list VideoProvider) : owned (map Some l) = l.
Proof. induction l as [| p l IH]; simpl; [reflexivity | now rewrite IH]. Qed.

(** C2, as stated, fails: with kMaxArity = 4 and only the odd devices
    working, no two misses are consecutive; the policy of the specification
    goes on to the bound of 8 attempts and finds cameras 1, 3, 5, 7, while
    the scan stops at the fourth miss (device 6) and returns 1, 3, 5. *)
Lemma AvailableVideoProviders_consecutive_counterexample :
  option_map snd (AvailableVideoProviders 4 Z.odd Application_new) = Some [1; 3; 5] /\
  DiscoverSources_spec 4 Z.odd = [1; 3; 5; 7] /\
  option_map snd (AvailableVideoProviders 4 Z.odd Application_new)
  <> Some (DiscoverSources_spec 4 Z.odd).
Proof. split; [reflexivity |]. split; [reflexivity | discriminate]. Qed.

(** C2 (amended).  With kMaxArity >= 1 discovery returns, having probed the
    devices 0, 1, ..., count-1 in this order, 1 <= count <= 2 kMaxArity: the
    devices that work are returned (and form the pool), the others are
    deleted.  It stops as soon as kMaxArity devices have failed in total,
    consecutive or not, or after 2 kMaxArity probes, whichever comes
    first. *)
Theorem AvailableVideoProviders_scan (kMaxArity : Z) (working : Z -> bool)
        (app : Application) :
  1 <= kMaxArity ->
  exists (count : nat) (app' : Application),
    AvailableVideoProviders kMaxArity working app
    = Some (app', filter working (devices 0 count)) /\
    probed working 0 count (InitializeEmpty app) app' /\
    (1 <= count)%nat /\ Z.of_nat count <= 2 * kMaxArity /\
    misses working 0 (count - 1) < kMaxArity /\
    (misses working 0 count = kMaxArity \/ Z.of_nat count = 2 * kMaxArity).
Proof.
  intro Hk. unfold AvailableVideoProviders.
  destruct (scan_devices_spec working kMaxArity (2 * kMaxArity)
              (S (Z.to_nat (2 * kMaxArity))) 0 0 (InitializeEmpty app))
    as (count & app' & Hs & Hc & Hp & H1 & H2 & H3 & H4); try lia.
  exists count, app'. rewrite Hs.
  destruct Hp as (P1 & P2 & P3 & P4 & P5 & P6).
  split.
  - rewrite P2. simpl. rewrite owned_map_Some. reflexivity.
  - split; [repeat split; assumption |].
    split; [exact Hc |]. repeat split; lia.
Qed.

(** Scenario C: kMaxArity = 4, devices 0 and 1 work, devices 2 to 5 fail:
    discovery returns the sources 0 and 1. *)
Lemma AvailableVideoProviders_scan_witness :
  (exists (count : nat) (app' : Application),
     AvailableVideoProviders 4 (fun d => d <? 2) Application_new
     = Some (app', filter (fun d => d <? 2) (devices 0 count)) /\
     probed (fun d => d <? 2) 0 count (InitializeEmpty Application_new) app' /\
     (1 <= count)%nat /\ Z.of_nat count <= 2 * 4 /\
     misses (fun d => d <? 2) 0 (count - 1) < 4 /\
     (misses (fun d => d <? 2) 0 count = 4 \/ Z.of_nat count = 2 * 4)) /\
  option_map snd (AvailableVideoProviders 4 (fun d => d <? 2) Application_new)
  = Some [0; 1].
Proof.
  split.
  - apply (AvailableVideoProviders_scan 4 (fun d => d <? 2) Application_new). lia.
  - reflexivity.
Defined.

(** ** Application: the pipeline and its calibration *)

Lemma scan_devices_keeps (working : Z -> bool) (skip tests : Z) :
  forall (fuel : nat) (device errors : Z) (app app' : Application),
    scan_devices working fuel skip tests device errors app = Some app' ->
    arity_ app' = arity_ app /\ controller_ app' = controller_ app /\
    converter_ app' = converter_ app /\ calibration_data_ app' = calibration_data_ app.
Proof.
  induction fuel as [| fuel IH]; simpl; intros device errors app app' H; [discriminate |].
  destruct (working device).
  - destruct (tests <=? device + 1).
    + injection H as <-. repeat split.
    + apply IH in H. exact H.
  - destruct (skip <=? errors + 1).
    + injection H as <-. repeat split.
    + destruct (tests <=? device + 1).
      * injection H as <-. repeat split.
      * apply IH in H. exact H.
Qed.

Lemma AvailableVideoProviders_keeps (kMaxArity : Z) (working : Z -> bool)
      (app app' : Application) (sources : list VideoProvider) :
  AvailableVideoProviders kMaxArity working app = Some (app', sources) ->
  arity_ app' = 0 /\ controller_ app' = None /\ converter_ app' = None /\
  calibration_data_ app' = calibration_data_ app.
Proof.
  unfold AvailableVideoProviders. intro H.
  destruct (scan_devices working (S (Z.to_nat (2 * kMaxArity))) kMaxArity
              (2 * kMaxArity) 0 0 (InitializeEmpty app)) as [a |] eqn:E; [| discriminate].
  injection H as <- _.
  apply scan_devices_keeps in E. exact E.
Qed.

(** A controller in place was built for the current arity and is connected
    to the application's calibration signal. *)
Lemma reachable_wired (app : Application) :
  reachable app ->
  forall c, controller_ app = Some c ->
            controller_Arity c = arity_ app /\
            In (Connect Application_CalibrationDataReady_Controller_SetCalibrationData)
               (events app).
Proof.
  induction 1 as [| app Hr IH | k w app app' sources Hr IH Hd
                  | providers app app' Hr IH Hi | d app app' Hr IH Hs]; intros c Hc.
  - discriminate.
  - discriminate.
  - apply AvailableVideoProviders_keeps in Hd. destruct Hd as (_ & Hn & _). congruence.
  - destruct (Initialize_Ok _ _ _ Hi)
      as (slots & _ & _ & Ha & _ & Hctl & _ & _ & rest & Hev & Hin & _).
    rewrite Hctl in Hc. injection Hc as <-. simpl. split; [now rewrite Ha |].
    rewrite Hev. apply in_or_app. right. apply in_or_app. right. exact Hin.
  - unfold SetCalibrationData in Hs.
    destruct (controller_ app) as [c0 |] eqn:E; [| discriminate].
    destruct (controller_Arity c0 =? Arity d); simpl in Hs; [| discriminate].
    injection Hs as <-. simpl in *. injection Hc as <-.
    destruct (IH c0 eq_refl) as (I1 & I2). split; [exact I1 |].
    apply in_or_app. left. exact I2.
Qed.

Lemma three_cameras_reachable : reachable three_cameras.
Proof.
  apply (reach_AvailableVideoProviders 3 (fun device => device <? 3)
           Application_new three_cameras [0; 1; 2] reach_new).
  reflexivity.
Qed.

Lemma calibrated_pipeline_run :
  (app <- Initialize [0; 2] three_cameras ;; SetCalibrationData calibration2 app)
  = Ok calibrated_pipeline.
Proof. reflexivity. Qed.

(** C9.  In a reachable state without a controller [SetCalibrationData]
    fails the assertion.  With a controller, whose arity is the arity of the
    pipeline and whose slot is connected to the application's signal, data
    of another arity fails the assertion, and data of that arity is stored
    as the application's copy and emitted, by value, with
    CalibrationDataReady. *)
Theorem SetCalibrationData_arity (calibration_data : CalibrationData) (app : Application) :
  reachable app ->
  (controller_ app = None ->
   SetCalibrationData calibration_data app = Abort AssertFailed) /\
  (forall c, controller_ app = Some c ->
     controller_Arity c = arity_ app /\
     In (Connect Application_CalibrationDataReady_Controller_SetCalibrationData)
        (events app) /\
     (Arity calibration_data <> arity_ app ->
      SetCalibrationData calibration_data app = Abort AssertFailed) /\
     (Arity calibration_data = arity_ app ->
      SetCalibrationData calibration_data app
      = Ok (mkApplication (arity_ app) (available_providers_ app) (controller_ app)
                          (converter_ app) (Some calibration_data)
                          (events app ++ [Emit (CalibrationDataReady calibration_data)])))).
Proof.
  intro Hr. split.
  - intro Hn. unfold SetCalibrationData. rewrite Hn. reflexivity.
  - intros c Hc. destruct (reachable_wired app Hr c Hc) as (Ha & Hw).
    split; [exact Ha |]. split; [exact Hw |].
    unfold SetCalibrationData. rewrite Hc, Ha. split; intro H.
    + destruct (Z.eqb_spec (arity_ app) (Arity calibration_data)) as [E | E];
        [congruence | reflexivity].
    + rewrite <- H, Z.eqb_refl. reflexivity.
Qed.

(** Scenario D: a pipeline assembled from 2 sources has arity 2; calibration
    data of arity 3 fails the assertion, data of arity 2 is stored. *)
Lemma SetCalibrationData_arity_witness :
  exists app,
    Initialize [0; 2] three_cameras = Ok app /\ arity_ app = 2 /\
    SetCalibrationData calibration3 app = Abort AssertFailed /\
    option_map calibration_data_
      (match SetCalibrationData calibration2 app with Ok a => Some a | Abort _ => None end)
    = Some (Some calibration2).
Proof.
  destruct (Initialize_total [0; 2] three_cameras) as (app & Hi).
  - discriminate.
  - repeat constructor; simpl; intuition discriminate.
  - intros p Hp. vm_compute. simpl in Hp. intuition.
  - exists app. split; [exact Hi |].
    assert (Hr : reachable app)
      by exact (reach_Initialize _ _ _ three_cameras_reachable Hi).
    destruct (Initialize_Ok _ _ _ Hi) as (_ & _ & _ & Ha & _ & Hc & _).
    split; [exact Ha |].
    destruct (proj2 (SetCalibrationData_arity calibration3 app Hr) _ Hc)
      as (_ & _ & Hbad & _).
    destruct (proj2 (SetCalibrationData_arity calibration2 app Hr) _ Hc)
      as (_ & _ & _ & Hgood).
    split.
    + apply Hbad. rewrite Ha. discriminate.
    + rewrite Hgood; [reflexivity | rewrite Ha; reflexivity].
Defined.

(** C4, as stated, fails: a pipeline with calibration data of arity 2 is torn
    down; the application is idle (arity 0, no controller) and still holds
    that data. *)
Lemma InitializeEmpty_keeps_calibration_counterexample :
  controller_ (InitializeEmpty calibrated_pipeline) = None /\
  arity_ (InitializeEmpty calibrated_pipeline) = 0 /\
  calibration_data_ (InitializeEmpty calibrated_pipeline) = Some calibration2 /\
  calibration_data_ (InitializeEmpty calibrated_pipeline) <> None.
Proof. repeat split; try reflexivity. discriminate. Qed.

(** C4 (amended).  A change of topology does not touch the calibration data
    the application holds: after [InitializeEmpty] (teardown), after
    [AvailableVideoProviders] and after [Initialize] (assembly of a new
    pipeline) the stored copy is the one held before. *)
Theorem topology_change_keeps_calibration (app : Application) :
  calibration_data_ (InitializeEmpty app) = calibration_data_ app /\
  (forall providers app',
      Initialize providers app = Ok app' ->
      calibration_data_ app' = calibration_data_ app) /\
  (forall kMaxArity working app' sources,
      AvailableVideoProviders kMaxArity working app = Some (app', sources) ->
      calibration_data_ app' = calibration_data_ app).
Proof.
  split; [reflexivity |]. split.
  - intros providers app' H.
    destruct (Initialize_Ok _ _ _ H) as (_ & _ & _ & _ & _ & _ & _ & Hcal & _).
    exact Hcal.
  - intros k w app' sources H.
    apply AvailableVideoProviders_keeps in H. tauto.
Qed.

(** The calibrated pipeline of cameras 0 and 2 is discovered anew and a
    pipeline of camera 1 alone is assembled: the data of arity 2 is still
    held. *)
Lemma topology_change_keeps_calibration_witness :
  exists idle sources app',
    AvailableVideoProviders 3 (fun device => device <? 3) calibrated_pipeline
    = Some (idle, sources) /\
    Initialize [1] idle = Ok app' /\ arity_ app' = 1 /\
    calibration_data_ app' = Some calibration2.
Proof.
  destruct (AvailableVideoProviders 3 (fun device => device <? 3) calibrated_pipeline)
    as [[idle sources] |] eqn:Hd; [| discriminate Hd].
  exists idle, sources.
  assert (Hpool : available_providers_ idle = [Some 0; Some 1; Some 2]).
  { vm_compute in Hd. injection Hd as <- _. reflexivity. }
  destruct (Initialize_total [1] idle) as (app' & Hi).
  - discriminate.
  - repeat constructor. simpl. tauto.
  - intros p [<- | []]. rewrite Hpool. simpl. tauto.
  - exists app'. split; [reflexivity |]. split; [exact Hi |].
    destruct (Initialize_Ok _ _ _ Hi) as (_ & _ & _ & Ha & _).
    split; [exact Ha |].
    destruct (topology_change_keeps_calibration idle) as (_ & Hinit & _).
    rewrite (Hinit _ _ Hi).
    destruct (topology_change_keeps_calibration calibrated_pipeline) as (_ & _ & Hdisc).
    rewrite (Hdisc _ _ _ _ Hd). reflexivity.
Defined.

(** ** minMaxLoc *)

Lemma scan_max (src : Mat Q) :
  forall (ps : list Point) (acc : Extremes),
    (max_val (scan src ps acc) = max_val acc /\ max_loc (scan src ps acc) = max_loc acc /\
     forall q, In q ps -> (value_at src q <= max_val acc)%Q) \/
    (exists l1 l2,
        ps = l1 ++ max_loc (scan src ps acc) :: l2 /\
        max_val (scan src ps acc) = value_at src (max_loc (scan src ps acc)) /\
        (max_val acc < max_val (scan src ps acc))%Q /\
        (forall q, In q l1 -> (value_at src q < max_val (scan src ps acc))%Q) /\
        (forall q, In q l2 -> (value_at src q <= max_val (scan src ps acc))%Q)).
Proof.
  induction ps as [| p ps IH]; intro acc; simpl.
  - left. repeat split. intros q [].
  - set (acc1 := if Qltb (value_at src p) (min_val acc)
                 then mkExtremes (value_at src p) (max_val acc) p (max_loc acc) else acc).
    assert (M1 : max_val acc1 = max_val acc /\ max_loc acc1 = max_loc acc).
    { unfold acc1. destruct (Qltb (value_at src p) (min_val acc)); split; reflexivity. }
    destruct M1 as (Mv & Ml). rewrite Mv.
    destruct (Qltb (max_val acc) (value_at src p)) eqn:C.
    + apply Qltb_true in C.
      destruct (IH (mkExtremes (min_val acc1) (value_at src p) (min_loc acc1) p))
        as [(E1 & E2 & E3) | (l1 & l2 & E1 & E2 & E3 & E4 & E5)]; simpl in *.
      * right. exists [], ps. rewrite E1, E2. simpl.
        repeat split; try assumption. intros q [].
      * right. exists (p :: l1), l2. split; [simpl; f_equal; exact E1 |].
        split; [exact E2 |]. split; [lra |]. split; [| exact E5].
        intros q [<- | Hq]; [exact E3 | now apply E4].
    + apply Qltb_false in C.
      destruct (IH acc1) as [(E1 & E2 & E3) | (l1 & l2 & E1 & E2 & E3 & E4 & E5)].
      * left. rewrite E1, E2, Mv, Ml. repeat split.
        intros q [<- | Hq]; [exact C |]. rewrite <- Mv. now apply E3.
      * right. exists (p :: l1), l2. split; [simpl; f_equal; exact E1 |].
        split; [exact E2 |]. rewrite Mv in E3. split; [exact E3 |]. split; [| exact E5].
        intros q [<- | Hq]; [lra | now apply E4].
Qed.

Lemma scan_min (src : Mat Q) :
  forall (ps : list Point) (acc : Extremes),
    (min_val (scan src ps acc) = min_val acc /\ min_loc (scan src ps acc) = min_loc acc /\
     forall q, In q ps -> (min_val acc <= value_at src q)%Q) \/
    (exists l1 l2,
        ps = l1 ++ min_loc (scan src ps acc) :: l2 /\
        min_val (scan src ps acc) = value_at src (min_loc (scan src ps acc)) /\
        (min_val (scan src ps acc) < min_val acc)%Q /\
        (forall q, In q l1 -> (min_val (scan src ps acc) < value_at src q)%Q) /\
        (forall q, In q l2 -> (min_val (scan src ps acc) <= value_at src q)%Q)).
Proof.
  induction ps as [| p ps IH]; intro acc; simpl.
  - left. repeat split. intros q [].
  - destruct (Qltb (value_at src p) (min_val acc)) eqn:C.
    + apply Qltb_true in C.
      set (acc1 := mkExtremes (value_at src p) (max_val acc) p (max_loc acc)).
      set (acc2 := if Qltb (max_val acc1) (value_at src p)
                   then mkExtremes (min_val acc1) (value_at src p) (min_loc acc1) p
                   else acc1).
      assert (M : min_val acc2 = value_at src p /\ min_loc acc2 = p).
      { unfold acc2. destruct (Qltb (max_val acc1) (value_at src p)); split; reflexivity. }
      destruct M as (Mv & Ml).
      destruct (IH acc2) as [(E1 & E2 & E3) | (l1 & l2 & E1 & E2 & E3 & E4 & E5)].
      * right. exists [], ps. rewrite E1, E2, Mv, Ml. simpl.
        repeat split; try assumption.
        -- intros q [].
        -- intros q Hq. rewrite <- Mv. now apply E3.
      * right. exists (p :: l1), l2. split; [simpl; f_equal; exact E1 |].
        split; [exact E2 |]. rewrite Mv in E3. split; [lra |]. split; [| exact E5].
        intros q [<- | Hq]; [exact E3 | now apply E4].
    + apply Qltb_false in C.
      set (acc2 := if Qltb (max_val acc) (value_at src p)
                   then mkExtremes (min_val acc) (value_at src p) (min_loc acc) p
                   else acc).
      assert (M : min_val acc2 = min_val acc /\ min_loc acc2 = min_loc acc).
      { unfold acc2. destruct (Qltb (max_val acc) (value_at src p)); split; reflexivity. }
      destruct M as (Mv & Ml).
      destruct (IH acc2) as [(E1 & E2 & E3) | (l1 & l2 & E1 & E2 & E3 & E4 & E5)].
      * left. rewrite E1, E2, Mv, Ml. repeat split.
        intros q [<- | Hq]; [exact C |]. rewrite <- Mv. now apply E3.
      * right. exists (p :: l1), l2. split; [simpl; f_equal; exact E1 |].
        split; [exact E2 |]. rewrite Mv in E3. split; [exact E3 |]. split; [| exact E5].
        intros q [<- | Hq]; [lra | now apply E4].
Qed.

Lemma In_zseq (n z : Z) : In z (zseq n) <-> 0 <= z < n.
Proof.
  unfold zseq. rewrite in_map_iff. split.
  - intros (k & <- & Hk). apply in_seq in Hk. lia.
  - intros H. exists (Z.to_nat z). split; [lia |]. apply in_seq. lia.
Qed.

Lemma In_cells {A : Type} (m : Mat A) (p : Point) :
  In p (cells m) <-> 0 <= px p < cols m /\ 0 <= py p < rows m.
Proof.
  unfold cells. rewrite in_flat_map. split.
  - intros (i & Hi & Hp). apply in_map_iff in Hp. destruct Hp as (j & <- & Hj).
    apply In_zseq in Hi. apply In_zseq in Hj. simpl. lia.
  - intros (Hx & Hy). exists (py p). split; [now apply In_zseq |].
    apply in_map_iff. exists (px p). split; [destruct p; reflexivity | now apply In_zseq].
Qed.

Lemma In_selection {A : Type} (m : Mat A) (mask : option (Mat pixel)) (p : Point) :
  In p (selection m mask) <-> In p (cells m) /\ selected mask p = true.
Proof. unfold selection. apply filter_In. Qed.

(** The maximum [minMaxLoc] reports is the first greatest value of the
    selection. *)
Lemma minMaxLoc_first_max (src : Mat Q) (mask : option (Mat pixel)) :
  selection src mask <> [] ->
  exists l1 l2,
    selection src mask = l1 ++ max_loc (minMaxLoc src mask) :: l2 /\
    max_val (minMaxLoc src mask) = value_at src (max_loc (minMaxLoc src mask)) /\
    (forall q, In q l1 -> (value_at src q < max_val (minMaxLoc src mask))%Q) /\
    (forall q, In q l2 -> (value_at src q <= max_val (minMaxLoc src mask))%Q).
Proof.
  unfold minMaxLoc, selection.
  destruct (filter (selected mask) (cells src)) as [| p ps]; [congruence |]. intros _.
  destruct (scan_max src ps (mkExtremes (value_at src p) (value_at src p) p p))
    as [(E1 & E2 & E3) | (l1 & l2 & E1 & E2 & E3 & E4 & E5)]; simpl in *.
  - exists [], ps. rewrite E1, E2. simpl. repeat split; try assumption. intros q [].
  - exists (p :: l1), l2. split; [simpl; f_equal; exact E1 |].
    split; [exact E2 |]. split; [| exact E5].
    intros q [<- | Hq]; [exact E3 | now apply E4].
Qed.

Lemma minMaxLoc_first_min (src : Mat Q) (mask : option (Mat pixel)) :
  selection src mask <> [] ->
  exists l1 l2,
    selection src mask = l1 ++ min_loc (minMaxLoc src mask) :: l2 /\
    min_val (minMaxLoc src mask) = value_at src (min_loc (minMaxLoc src mask)) /\
    (forall q, In q l1 -> (min_val (minMaxLoc src mask) < value_at src q)%Q) /\
    (forall q, In q l2 -> (min_val (minMaxLoc src mask) <= value_at src q)%Q).
Proof.
  unfold minMaxLoc, selection.
  destruct (filter (selected mask) (cells src)) as [| p ps]; [congruence |]. intros _.
  destruct (scan_min src ps (mkExtremes (value_at src p) (value_at src p) p p))
    as [(E1 & E2 & E3) | (l1 & l2 & E1 & E2 & E3 & E4 & E5)]; simpl in *.
  - exists [], ps. rewrite E1, E2. simpl. repeat split; try assumption. intros q [].
  - exists (p :: l1), l2. split; [simpl; f_equal; exact E1 |].
    split; [exact E2 |]. split; [| exact E5].
    intros q [<- | Hq]; [exact E3 | now apply E4].
Qed.

(** The extremes are values of selected positions and bound every selected
    value. *)
Lemma minMaxLoc_bounds (src : Mat Q) (mask : option (Mat pixel)) :
  selection src mask <> [] ->
  In (max_loc (minMaxLoc src mask)) (selection src mask) /\
  In (min_loc (minMaxLoc src mask)) (selection src mask) /\
  max_val (minMaxLoc src mask) = value_at src (max_loc (minMaxLoc src mask)) /\
  min_val (minMaxLoc src mask) = value_at src (min_loc (minMaxLoc src mask)) /\
  forall q, In q (selection src mask) ->
            (min_val (minMaxLoc src mask) <= value_at src q)%Q /\
            (value_at src q <= max_val (minMaxLoc src mask))%Q.
Proof.
  intro Hne.
  destruct (minMaxLoc_first_max src mask Hne) as (a1 & a2 & A1 & A2 & A3 & A4).
  destruct (minMaxLoc_first_min src mask Hne) as (b1 & b2 & B1 & B2 & B3 & B4).
  split; [rewrite A1; apply in_or_app; right; now left |].
  split; [rewrite B1; apply in_or_app; right; now left |].
  split; [exact A2 |]. split; [exact B2 |].
  intros q Hq. split.
  - rewrite B1 in Hq. apply in_app_or in Hq. destruct Hq as [Hq | [<- | Hq]].
    + apply Qlt_le_weak. now apply B3.
    + rewrite <- B2. apply Qle_refl.
    + now apply B4.
  - rewrite A1 in Hq. apply in_app_or in Hq. destruct Hq as [Hq | [<- | Hq]].
    + apply Qlt_le_weak. now apply A3.
    + rewrite <- A2. apply Qle_refl.
    + now apply A4.
Qed.

Lemma minMaxLoc_empty (src : Mat Q) (mask : option (Mat pixel)) :
  selection src mask = [] ->
  minMaxLoc src mask = mkExtremes 0 0 (mkPoint (-1) (-1)) (mkPoint (-1) (-1)).
Proof. unfold minMaxLoc, selection. intros ->. reflexivity. Qed.

(** The statistics read the score map at the selected positions only. *)
Lemma scan_ext (src src' : Mat Q) :
  forall (ps : list Point) (acc : Extremes),
    (forall p, In p ps -> value_at src p = value_at src' p) ->
    scan src ps acc = scan src' ps acc.
Proof.
  induction ps as [| p ps IH]; intros acc H; simpl; [reflexivity |].
  rewrite (H p (or_introl eq_refl)). apply IH. intros q Hq. apply H. now right.
Qed.

Lemma minMaxLoc_ext (src src' : Mat Q) (mask : option (Mat pixel)) :
  rows src' = rows src -> cols src' = cols src ->
  (forall p, In p (selection src mask) -> value_at src p = value_at src' p) ->
  minMaxLoc src mask = minMaxLoc src' mask.
Proof.
  intros Hr Hc H. unfold minMaxLoc.
  assert (Hs : selection src' mask = selection src mask)
    by (unfold selection, cells; now rewrite Hr, Hc).
  unfold selection in Hs, H. rewrite Hs.
  destruct (filter (selected mask) (cells src)) as [| p ps]; [reflexivity |].
  rewrite (H p (or_introl eq_refl)). apply scan_ext.
  intros q Hq. apply H. now right.
Qed.

(** ** Rectangles *)

Lemma Rect_and_contains (a b : Rect) (p : Point) :
  Rect_contains (Rect_and a b) p = Rect_contains a p && Rect_contains b p.
Proof.
  apply eq_iff_eq_true. unfold Rect_contains, Rect_and.
  destruct (Z.leb_spec (Z.min (x a + width a) (x b + width b) - Z.max (x a) (x b)) 0);
    destruct (Z.leb_spec (Z.min (y a + height a) (y b + height b) - Z.max (y a) (y b)) 0);
    simpl; rewrite !andb_true_iff, !Z.leb_le, !Z.ltb_lt; lia.
Qed.

Lemma Rect_and_fits {A : Type} (m : Mat A) (a : Rect) :
  0 <= rows m -> 0 <= cols m -> roi_fits m (Rect_and a (Rect_of_size m)) = true.
Proof.
  intros Hr Hc. unfold roi_fits, Rect_and, Rect_of_size. cbn [x y width height].
  match goal with |- context [if ?c then _ else _] => destruct c eqn:E end;
    cbn [x y width height]; rewrite !andb_true_iff, !Z.leb_le.
  - lia.
  - apply orb_false_iff in E. destruct E as (E1 & E2).
    apply Z.leb_gt in E1. apply Z.leb_gt in E2. lia.
Qed.

Lemma half_size_nonneg (tpl : TemplateData) :
  0 <= rows (search_template tpl) -> 0 <= cols (search_template tpl) ->
  0 <= px (half_size tpl) /\ 0 <= py (half_size tpl).
Proof.
  intros Hr Hc. unfold half_size. simpl. split; apply Z.quot_pos; lia.
Qed.

Lemma grown_points (tpl : TemplateData) (r : Rect) :
  0 <= rows (search_template tpl) -> 0 <= cols (search_template tpl) ->
  0 <= width r -> 0 <= height r ->
  Rect_of_points (TopLeft tpl (tl r)) (BottomRight tpl (br r)) = grown tpl r.
Proof.
  intros Hr Hc Hw Hh. destruct (half_size_nonneg tpl Hr Hc) as (Hx & Hy).
  unfold Rect_of_points, TopLeft, BottomRight, tl, br, Point_sub, Point_add, grown.
  revert Hx Hy. generalize (half_size tpl). intros h Hx Hy.
  cbn [px py]. f_equal; lia.
Qed.

(** ** Search *)

Section SearchProperties.

Variable score : TemplateMatchMode -> Mat pixel -> Mat pixel -> Q.
Variable cv_sqrt : Q -> Q.

Lemma extended_roi_fits (data : Mat pixel) (tpl : TemplateData) (roi : option Rect) :
  0 <= rows data -> 0 <= cols data ->
  roi_fits data (extended_roi_of data tpl roi) = true.
Proof.
  intros Hr Hc. destruct roi as [r |]; simpl.
  - now apply Rect_and_fits.
  - unfold roi_fits, Rect_of_size. simpl. rewrite !andb_true_iff, !Z.leb_le. lia.
Qed.

Lemma match_result_of_Ok (data : Mat pixel) (tpl : TemplateData) (roi : option Rect) :
  0 <= rows data -> 0 <= cols data ->
  match_result_of score data tpl (extended_roi_of data tpl roi)
  = Ok (matchTemplate score (view data (extended_roi_of data tpl roi))
                      (search_template tpl) method).
Proof.
  intros Hr Hc. unfold match_result_of, Mat_roi.
  rewrite (extended_roi_fits data tpl roi Hr Hc). reflexivity.
Qed.

Lemma statistics_of_mask (tpl : TemplateData) (extended_roi : Rect) (m : Mat Q)
      (mask : option (Mat pixel)) :
  statistics_of cv_sqrt tpl extended_roi m mask
  = (k <- mask_for_scores tpl extended_roi m mask ;;
     Ok (minMaxLoc m k, meanStdDev cv_sqrt m k)).
Proof.
  unfold statistics_of, mask_for_scores. destruct mask as [km |]; [| reflexivity].
  destruct (shifted_mask_of tpl extended_roi m km); reflexivity.
Qed.

(** [Search] once the region is large enough, the score map [m] is there and
    the mask, if any, is aligned. *)
Lemma Search_stages (data : Mat pixel) (tpl : TemplateData) (roi : option Rect)
      (mask : option (Mat pixel)) (threshold : Q) (m : Mat Q) (k : option (Mat pixel)) :
  small_roi tpl (extended_roi_of data tpl roi) = false ->
  match_result_of score data tpl (extended_roi_of data tpl roi) = Ok m ->
  mask_for_scores tpl (extended_roi_of data tpl roi) m mask = Ok k ->
  Search score cv_sqrt data tpl roi mask threshold
  = if Qleb (max_val (minMaxLoc m k) - min_val (minMaxLoc m k)) threshold
    then Ok None
    else Ok (Some (mark_at tpl (extended_roi_of data tpl roi) (max_loc (minMaxLoc m k)))).
Proof.
  intros Hs Hm Hk. unfold Search. rewrite Hs, Hm. simpl.
  rewrite statistics_of_mask, Hk. reflexivity.
Qed.

(** C7.  Without a region the extended search region is the whole image;
    with a region it is the caller's rectangle grown by the template's
    half-size on every side and cut to the image.  When it is narrower or
    lower than the template, [Search] returns false; otherwise the score map
    has (height - template rows + 1) rows and (width - template columns + 1)
    columns, its element at a row and a column is the score of the template
    against the window of the extended region that starts there, and what
    [Search] returns is decided on this map: the mask, if any, is aligned to
    it, nothing is found when the confidence on it is at most the threshold,
    and otherwise the mark of its greatest score is returned, in the
    coordinates of the image (the location on the map, plus the template's
    half-size, plus the origin of the extended region). *)
Theorem Search_extended_region (data : Mat pixel) (tpl : TemplateData)
        (roi : option Rect) (mask : option (Mat pixel)) (threshold : Q) :
  0 <= rows data -> 0 <= cols data ->
  0 <= rows (search_template tpl) -> 0 <= cols (search_template tpl) ->
  match roi with Some r => 0 <= width r /\ 0 <= height r | None => True end ->
  extended_roi_of data tpl roi
  = match roi with
    | None => Rect_of_size data
    | Some r => Rect_and (grown tpl r) (Rect_of_size data)
    end /\
  (forall r p, roi = Some r ->
     Rect_contains (extended_roi_of data tpl roi) p
     = Rect_contains (grown tpl r) p && Rect_contains (Rect_of_size data) p) /\
  (width (extended_roi_of data tpl roi) < cols (search_template tpl) \/
   height (extended_roi_of data tpl roi) < rows (search_template tpl) ->
   Search score cv_sqrt data tpl roi mask threshold = Ok None) /\
  (cols (search_template tpl) <= width (extended_roi_of data tpl roi) ->
   rows (search_template tpl) <= height (extended_roi_of data tpl roi) ->
   exists m,
     match_result_of score data tpl (extended_roi_of data tpl roi) = Ok m /\
     rows m = height (extended_roi_of data tpl roi) - rows (search_template tpl) + 1 /\
     cols m = width (extended_roi_of data tpl roi) - cols (search_template tpl) + 1 /\
     (forall i j,
         at_ m i j
         = score method
                 (mkMat (rows (search_template tpl)) (cols (search_template tpl))
                        (fun a b => at_ data (a + i + y (extended_roi_of data tpl roi))
                                             (b + j + x (extended_roi_of data tpl roi))))
                 (search_template tpl)) /\
     Search score cv_sqrt data tpl roi mask threshold
     = (k <- mask_for_scores tpl (extended_roi_of data tpl roi) m mask ;;
        if Qleb (max_val (minMaxLoc m k) - min_val (minMaxLoc m k)) threshold
        then Ok None
        else Ok (Some (mkMark kCircle
                         (mkPoint2
                            (inject_Z (px (max_loc (minMaxLoc m k)))
                             + inject_Z (px (half_size tpl))
                             + inject_Z (x (extended_roi_of data tpl roi)))
                            (inject_Z (py (max_loc (minMaxLoc m k)))
                             + inject_Z (py (half_size tpl))
                             + inject_Z (y (extended_roi_of data tpl roi))))
                         (tpl_radius tpl))))).
Proof.
  intros Hr Hc Htr Htc Hroi.
  assert (Hext : extended_roi_of data tpl roi
                 = match roi with
                   | None => Rect_of_size data
                   | Some r => Rect_and (grown tpl r) (Rect_of_size data)
                   end).
  { destruct roi as [r |]; [| reflexivity]. simpl.
    destruct Hroi as (Hw & Hh). now rewrite grown_points. }
  split; [exact Hext |]. split; [| split].
  - intros r p ->. rewrite Hext. apply Rect_and_contains.
  - intro Hsmall. unfold Search.
    replace (small_roi tpl (extended_roi_of data tpl roi)) with true; [reflexivity |].
    symmetry. unfold small_roi. apply orb_true_iff.
    destruct Hsmall as [H | H]; [left | right]; apply Z.ltb_lt; exact H.
  - intros Hw Hh. eexists. split; [apply match_result_of_Ok; assumption |].
    split; [reflexivity |]. split; [reflexivity |]. split; [reflexivity |].
    unfold Search.
    replace (small_roi tpl (extended_roi_of data tpl roi)) with false.
    2:{ symmetry. unfold small_roi. apply orb_false_iff. split; apply Z.ltb_ge; lia. }
    rewrite (match_result_of_Ok data tpl roi Hr Hc). cbn [bind].
    rewrite statistics_of_mask.
    destruct (mask_for_scores tpl (extended_roi_of data tpl roi)
                (matchTemplate score (view data (extended_roi_of data tpl roi))
                               (search_template tpl) method) mask) as [k | f];
      [| reflexivity].
    cbn [bind fst confidence winning_loc method].
    destruct (Qleb _ threshold); [reflexivity |].
    unfold mark_at, Point2_add, Point2_of_ints, TopLeft, Point_neg, Point_sub, origin.
    cbn [px py fx fy].
    replace (- (0 - px (half_size tpl))) with (px (half_size tpl)) by lia.
    replace (- (0 - py (half_size tpl))) with (py (half_size tpl)) by lia.
    reflexivity.
Qed.

(** C5.  With the method CV_TM_CCOEFF_NORMED the confidence is the greatest
    minus the least score among the positions the (shifted) mask selects, and
    [Search] returns false exactly when it is at most the threshold.  For a
    fixed image, template, region and mask, a mark found with a threshold is
    found, the same, with every lower threshold: raising the threshold only
    turns found into not found. *)
Theorem Search_confidence_threshold (data : Mat pixel) (tpl : TemplateData)
        (roi : option Rect) (mask : option (Mat pixel)) :
  (forall (m : Mat Q) (k : option (Mat pixel)),
      small_roi tpl (extended_roi_of data tpl roi) = false ->
      match_result_of score data tpl (extended_roi_of data tpl roi) = Ok m ->
      mask_for_scores tpl (extended_roi_of data tpl roi) m mask = Ok k ->
      confidence method (minMaxLoc m k)
      = (max_val (minMaxLoc m k) - min_val (minMaxLoc m k))%Q /\
      (selection m k <> [] ->
       In (max_loc (minMaxLoc m k)) (selection m k) /\
       In (min_loc (minMaxLoc m k)) (selection m k) /\
       max_val (minMaxLoc m k) = value_at m (max_loc (minMaxLoc m k)) /\
       min_val (minMaxLoc m k) = value_at m (min_loc (minMaxLoc m k)) /\
       forall q, In q (selection m k) ->
                 (min_val (minMaxLoc m k) <= value_at m q)%Q /\
                 (value_at m q <= max_val (minMaxLoc m k))%Q) /\
      forall threshold,
        (Search score cv_sqrt data tpl roi mask threshold = Ok None
         <-> (confidence method (minMaxLoc m k) <= threshold)%Q) /\
        ((threshold < confidence method (minMaxLoc m k))%Q ->
         Search score cv_sqrt data tpl roi mask threshold
         = Ok (Some (mark_at tpl (extended_roi_of data tpl roi)
                             (max_loc (minMaxLoc m k)))))) /\
  (forall (t1 t2 : Q) (found : Mark),
      (t1 <= t2)%Q ->
      Search score cv_sqrt data tpl roi mask t2 = Ok (Some found) ->
      Search score cv_sqrt data tpl roi mask t1 = Ok (Some found)) /\
  (forall t1 t2 : Q,
      (t1 <= t2)%Q ->
      Search score cv_sqrt data tpl roi mask t1 = Ok None ->
      Search score cv_sqrt data tpl roi mask t2 = Ok None).
Proof.
  split; [| split].
  - intros m k Hs Hm Hk. split; [reflexivity |]. split; [apply minMaxLoc_bounds |].
    intro threshold. rewrite (Search_stages data tpl roi mask threshold m k Hs Hm Hk).
    simpl confidence.
    destruct (Qleb (max_val (minMaxLoc m k) - min_val (minMaxLoc m k)) threshold) eqn:E.
    + apply Qleb_true in E. split; [tauto |]. intro H. lra.
    + apply Qleb_false in E. split; [| reflexivity].
      split; [discriminate | intro H; lra].
  - intros t1 t2 found Ht. unfold Search.
    destruct (small_roi tpl (extended_roi_of data tpl roi)); [discriminate |].
    destruct (match_result_of score data tpl (extended_roi_of data tpl roi)) as [m | f];
      [| discriminate]. simpl.
    destruct (statistics_of cv_sqrt tpl (extended_roi_of data tpl roi) m mask)
      as [stats | f]; [| discriminate]. simpl.
    destruct (Qleb (max_val (fst stats) - min_val (fst stats)) t2) eqn:E2; [discriminate |].
    intro H. apply Qleb_false in E2.
    replace (Qleb (max_val (fst stats) - min_val (fst stats)) t1) with false; [exact H |].
    symmetry. apply Qleb_false. lra.
  - intros t1 t2 Ht. unfold Search.
    destruct (small_roi tpl (extended_roi_of data tpl roi)); [reflexivity |].
    destruct (match_result_of score data tpl (extended_roi_of data tpl roi)) as [m | f];
      [| discriminate]. simpl.
    destruct (statistics_of cv_sqrt tpl (extended_roi_of data tpl roi) m mask)
      as [stats | f]; [| discriminate]. simpl.
    destruct (Qleb (max_val (fst stats) - min_val (fst stats)) t1) eqn:E1; [| discriminate].
    intros _. apply Qleb_true in E1.
    replace (Qleb (max_val (fst stats) - min_val (fst stats)) t2) with true; [reflexivity |].
    symmetry. apply Qleb_true. lra.
Qed.


Lemma even_half (n : Z) : 0 <= n -> Z.even n = true -> n = 2 * Z.quot n 2.
Proof.
  intros Hn He. apply Z.even_spec in He. destruct He as (k & ->).
  rewrite Z.mul_comm, Z.quot_mul by lia. lia.
Qed.

(** With a template of even size and a mask of the size of the image, the
    mask cropped and shifted has the size of the score map. *)
Lemma shifted_mask_aligned (data mask : Mat pixel) (tpl : TemplateData) (roi : option Rect) :
  0 <= rows data -> 0 <= cols data ->
  rows mask = rows data -> cols mask = cols data ->
  Z.even (rows (search_template tpl)) = true ->
  Z.even (cols (search_template tpl)) = true ->
  0 < rows (search_template tpl) -> 0 < cols (search_template tpl) ->
  small_roi tpl (extended_roi_of data tpl roi) = false ->
  shifted_mask_of tpl (extended_roi_of data tpl roi)
    (matchTemplate score (view data (extended_roi_of data tpl roi))
                   (search_template tpl) method) mask
  = Ok (view (view mask (extended_roi_of data tpl roi))
             (shift_rect_of tpl (extended_roi_of data tpl roi))).
Proof.
  intros Hr Hc Hmr Hmc Her Hec Htr Htc Hs.
  pose proof (extended_roi_fits data tpl roi Hr Hc) as Hfit.
  set (ext := extended_roi_of data tpl roi) in *.
  pose proof (even_half _ (Z.lt_le_incl _ _ Htr) Her) as Hy.
  pose proof (even_half _ (Z.lt_le_incl _ _ Htc) Hec) as Hx.
  unfold small_roi in Hs. apply orb_false_iff in Hs. destruct Hs as (Hw & Hh).
  apply Z.ltb_ge in Hw. apply Z.ltb_ge in Hh.
  unfold shifted_mask_of, Mat_roi.
  assert (Hfit' : roi_fits mask ext = true)
    by (unfold roi_fits in *; rewrite Hmr, Hmc; exact Hfit).
  rewrite Hfit'. cbn [bind].
  unfold TopLeft, BottomRight, Point_neg, Point_sub, Point_add, origin,
    Rect_of_points, half_size in *.
  cbn [px py x y width height rows cols view] in *.
  set (hx := Z.quot (cols (search_template tpl)) 2) in *.
  set (hy := Z.quot (rows (search_template tpl)) 2) in *.
  replace (Z.min (- (0 - hx)) (width ext - (0 + hx))) with hx by lia.
  replace (Z.min (- (0 - hy)) (height ext - (0 + hy))) with hy by lia.
  replace (Z.max (- (0 - hx)) (width ext - (0 + hx)) - hx + 1)
    with (width ext - 2 * hx + 1) by lia.
  replace (Z.max (- (0 - hy)) (height ext - (0 + hy)) - hy + 1)
    with (height ext - 2 * hy + 1) by lia.
  assert (Hfit2 : roi_fits (view mask ext)
                           (mkRect hx hy (width ext - 2 * hx + 1) (height ext - 2 * hy + 1))
                  = true).
  { unfold roi_fits. cbn [px py x y width height rows cols view].
    rewrite !andb_true_iff, !Z.leb_le. lia. }
  rewrite Hfit2. cbn [bind view rows cols height width matchTemplate].
  replace (height ext - rows (search_template tpl) + 1 =? height ext - 2 * hy + 1)
    with true by (symmetry; apply Z.eqb_eq; lia).
  replace (width ext - cols (search_template tpl) + 1 =? width ext - 2 * hx + 1)
    with true by (symmetry; apply Z.eqb_eq; lia).
  reflexivity.
Qed.

Lemma meanStdDev_ext (src src' : Mat Q) (mask : option (Mat pixel)) :
  rows src' = rows src -> cols src' = cols src ->
  (forall p, In p (selection src mask) -> value_at src p = value_at src' p) ->
  meanStdDev cv_sqrt src mask = meanStdDev cv_sqrt src' mask.
Proof.
  intros Hr Hc H. unfold meanStdDev.
  assert (Hs : filter (selected mask) (cells src') = filter (selected mask) (cells src))
    by (unfold cells; now rewrite Hr, Hc).
  rewrite Hs. unfold selection in H.
  rewrite (map_ext_in (value_at src) (value_at src') _ H). reflexivity.
Qed.

Lemma mark_at_center (tpl : TemplateData) (ext : Rect) (loc : Point) :
  (fx (center (mark_at tpl ext loc)) == inject_Z (px (match_point tpl ext loc)))%Q /\
  (fy (center (mark_at tpl ext loc)) == inject_Z (py (match_point tpl ext loc)))%Q /\
  pixel_of (center (mark_at tpl ext loc)) = match_point tpl ext loc /\
  type (mark_at tpl ext loc) = kCircle /\
  radius (mark_at tpl ext loc) = tpl_radius tpl.
Proof.
  unfold mark_at, match_point, pixel_of, TopLeft, Point_neg, Point_sub, origin,
    Point2_add, Point2_of_ints. cbn [px py fx fy center type radius].
  repeat split.
  - rewrite !inject_Z_plus. replace (- (0 - px (half_size tpl))) with (px (half_size tpl)) by lia.
    reflexivity.
  - rewrite !inject_Z_plus. replace (- (0 - py (half_size tpl))) with (py (half_size tpl)) by lia.
    reflexivity.
  - unfold trunc. simpl. rewrite !Z.quot_1_r. f_equal; lia.
Qed.

(** C6 (amended).  For a template of even, non-zero size and a mask of the
    size of the image, once the small-roi test has passed: the mask cropped
    to the extended region and shifted by the template's half-size has the
    rows and columns of the score map (both assertions hold), its element
    for a position of the score map being the mask at the centre of the
    window there; minimum, maximum and standard deviation depend on the
    scores at the selected positions only; a mark that is found lies at a
    position the mask selects, provided the threshold is not negative or the
    mask selects some position; and when the mask selects none, nothing is
    found for a threshold >= 0. *)
Theorem Search_mask_alignment (data mask : Mat pixel) (tpl : TemplateData)
        (roi : option Rect) (threshold : Q) :
  0 <= rows data -> 0 <= cols data ->
  rows mask = rows data -> cols mask = cols data ->
  Z.even (rows (search_template tpl)) = true ->
  Z.even (cols (search_template tpl)) = true ->
  0 < rows (search_template tpl) -> 0 < cols (search_template tpl) ->
  small_roi tpl (extended_roi_of data tpl roi) = false ->
  exists (m : Mat Q) (shifted_mask : Mat pixel),
    match_result_of score data tpl (extended_roi_of data tpl roi) = Ok m /\
    shifted_mask_of tpl (extended_roi_of data tpl roi) m mask = Ok shifted_mask /\
    rows shifted_mask = rows m /\ cols shifted_mask = cols m /\
    (forall loc, value_at shifted_mask loc
                 = value_at mask (match_point tpl (extended_roi_of data tpl roi) loc)) /\
    statistics_of cv_sqrt tpl (extended_roi_of data tpl roi) m (Some mask)
    = Ok (minMaxLoc m (Some shifted_mask), meanStdDev cv_sqrt m (Some shifted_mask)) /\
    (forall m' : Mat Q,
        rows m' = rows m -> cols m' = cols m ->
        (forall p, In p (selection m (Some shifted_mask)) -> value_at m p = value_at m' p) ->
        minMaxLoc m (Some shifted_mask) = minMaxLoc m' (Some shifted_mask) /\
        meanStdDev cv_sqrt m (Some shifted_mask)
        = meanStdDev cv_sqrt m' (Some shifted_mask)) /\
    (forall found,
        (0 <= threshold)%Q \/ selection m (Some shifted_mask) <> [] ->
        Search score cv_sqrt data tpl roi (Some mask) threshold = Ok (Some found) ->
        exists loc,
          In loc (selection m (Some shifted_mask)) /\
          found = mark_at tpl (extended_roi_of data tpl roi) loc /\
          pixel_of (center found) = match_point tpl (extended_roi_of data tpl roi) loc /\
          value_at mask (pixel_of (center found)) <> 0) /\
    (selection m (Some shifted_mask) = [] -> (0 <= threshold)%Q ->
     Search score cv_sqrt data tpl roi (Some mask) threshold = Ok None).
Proof.
  intros Hr Hc Hmr Hmc Her Hec Htr Htc Hs.
  pose proof (match_result_of_Ok data tpl roi Hr Hc) as Hm.
  pose proof (shifted_mask_aligned data mask tpl roi Hr Hc Hmr Hmc Her Hec Htr Htc Hs) as Hk.
  set (ext := extended_roi_of data tpl roi) in *.
  set (m := matchTemplate score (view data ext) (search_template tpl) method) in *.
  set (sm := view (view mask ext) (shift_rect_of tpl ext)) in *.
  pose proof (even_half _ (Z.lt_le_incl _ _ Htr) Her) as Hy.
  pose proof (even_half _ (Z.lt_le_incl _ _ Htc) Hec) as Hx.
  assert (Hval : forall loc, value_at sm loc = value_at mask (match_point tpl ext loc)).
  { intro loc. unfold sm, value_at, match_point, shift_rect_of, view.
    cbn [at_ px py x y]. reflexivity. }
  assert (Hkk : mask_for_scores tpl ext m (Some mask) = Ok (Some sm))
    by (unfold mask_for_scores; rewrite Hk; reflexivity).
  exists m, sm.
  split; [exact Hm |]. split; [exact Hk |].
  split; [unfold sm, m, shift_rect_of, half_size, view, matchTemplate;
          cbn [rows cols height width px py]; lia |].
  split; [unfold sm, m, shift_rect_of, half_size, view, matchTemplate;
          cbn [rows cols height width px py]; lia |].
  split; [exact Hval |].
  split; [rewrite statistics_of_mask, Hkk; reflexivity |].
  split; [| split].
  - intros m' Hr' Hc' Hagree. split.
    + now apply minMaxLoc_ext.
    + now apply meanStdDev_ext.
  - intros found Hcond.
    rewrite (Search_stages data tpl roi (Some mask) threshold m (Some sm) Hs Hm Hkk).
    destruct (Qleb (max_val (minMaxLoc m (Some sm)) - min_val (minMaxLoc m (Some sm)))
                   threshold) eqn:E; [discriminate |].
    intro Hf. injection Hf as <-. apply Qleb_false in E.
    assert (Hne : selection m (Some sm) <> []).
    { destruct Hcond as [Ht | Hne]; [| exact Hne].
      intro Hemp. rewrite (minMaxLoc_empty m (Some sm) Hemp) in E. simpl in E. lra. }
    destruct (minMaxLoc_bounds m (Some sm) Hne) as (Hin & _).
    exists (max_loc (minMaxLoc m (Some sm))).
    split; [exact Hin |]. split; [reflexivity |].
    destruct (mark_at_center tpl ext (max_loc (minMaxLoc m (Some sm))))
      as (_ & _ & Hpix & _).
    split; [exact Hpix |].
    fold ext. rewrite Hpix, <- Hval.
    apply In_selection in Hin. destruct Hin as (_ & Hsel).
    simpl in Hsel. apply negb_true_iff in Hsel. apply Z.eqb_neq in Hsel. exact Hsel.
  - intros Hemp Ht.
    rewrite (Search_stages data tpl roi (Some mask) threshold m (Some sm) Hs Hm Hkk).
    rewrite (minMaxLoc_empty m (Some sm) Hemp). simpl.
    replace (Qleb (0 - 0) threshold) with true; [reflexivity |].
    symmetry. apply Qleb_true. lra.
Qed.

Lemma Point_eq_dec (p q : Point) : {p = q} + {p <> q}.
Proof. decide equality; apply Z.eq_dec. Qed.

Lemma selection_None {A : Type} (m : Mat A) : selection m None = cells m.
Proof.
  unfold selection. induction (cells m) as [| p l IH]; simpl; [reflexivity | now rewrite IH].
Qed.

(** ** The scan order *)

Lemma StronglySorted_app {A : Type} (R : A -> A -> Prop) (l l' : list A) :
  StronglySorted R l -> StronglySorted R l' ->
  (forall a b, In a l -> In b l' -> R a b) ->
  StronglySorted R (l ++ l').
Proof.
  induction l as [| a l IH]; simpl; intros Hl Hl' H; [exact Hl' |].
  inversion Hl as [| ? ? Hs Hf]; subst. constructor.
  - apply IH; [exact Hs | exact Hl' |]. intros u v Hu Hv. apply H; [now right | exact Hv].
  - apply Forall_app. split; [exact Hf |].
    apply Forall_forall. intros b Hb. apply H; [now left | exact Hb].
Qed.

Lemma StronglySorted_split {A : Type} (R : A -> A -> Prop) (l1 l2 : list A) (q : A) :
  StronglySorted R (l1 ++ q :: l2) ->
  (forall p, In p l1 -> R p q) /\ (forall p, In p l2 -> R q p).
Proof.
  induction l1 as [| a l1 IH]; simpl; intro H; inversion H as [| ? ? Hs Hf]; subst.
  - split; [intros p [] |]. intros p Hp. rewrite Forall_forall in Hf. now apply Hf.
  - destruct (IH Hs) as (I1 & I2). split; [| exact I2].
    intros p [<- | Hp]; [| now apply I1].
    rewrite Forall_forall in Hf. apply Hf. apply in_or_app. right. now left.
Qed.

Lemma seq_sorted (k : nat) :
  forall s : nat, StronglySorted Z.lt (map Z.of_nat (seq s k)).
Proof.
  induction k as [| k IH]; intro s; simpl; constructor.
  - apply IH.
  - apply Forall_forall. intros z Hz. apply in_map_iff in Hz.
    destruct Hz as (i & <- & Hi). apply in_seq in Hi. lia.
Qed.

Lemma row_sorted (i : Z) (js : list Z) :
  StronglySorted Z.lt js -> StronglySorted before (map (fun j => mkPoint j i) js).
Proof.
  induction js as [| j js IH]; simpl; intro H; constructor;
    inversion H as [| ? ? Hs Hf]; subst.
  - now apply IH.
  - apply Forall_forall. intros p Hp. apply in_map_iff in Hp.
    destruct Hp as (j' & <- & Hj'). rewrite Forall_forall in Hf.
    right. simpl. split; [reflexivity | now apply Hf].
Qed.

Lemma rows_sorted (js is_ : list Z) :
  StronglySorted Z.lt js -> StronglySorted Z.lt is_ ->
  StronglySorted before (flat_map (fun i => map (fun j => mkPoint j i) js) is_).
Proof.
  intro Hjs. induction is_ as [| i is_ IH]; simpl; intro H; [constructor |].
  inversion H as [| ? ? Hs Hf]; subst.
  apply StronglySorted_app; [now apply row_sorted | now apply IH |].
  intros a b Ha Hb. apply in_map_iff in Ha. destruct Ha as (j & <- & _).
  apply in_flat_map in Hb. destruct Hb as (i' & Hi' & Hb).
  apply in_map_iff in Hb. destruct Hb as (j' & <- & _).
  rewrite Forall_forall in Hf. left. simpl. now apply Hf.
Qed.

Lemma cells_sorted {A : Type} (m : Mat A) : StronglySorted before (cells m).
Proof. unfold cells, zseq. apply rows_sorted; apply seq_sorted. Qed.

(** The location [minMaxLoc] reports for the maximum, without a mask, is the
    first position in scan order that holds the greatest score, and the only
    one with that description. *)
Lemma minMaxLoc_first (m : Mat Q) :
  cells m <> [] ->
  In (max_loc (minMaxLoc m None)) (cells m) /\
  max_val (minMaxLoc m None) = value_at m (max_loc (minMaxLoc m None)) /\
  (forall p, In p (cells m) ->
             (value_at m p <= value_at m (max_loc (minMaxLoc m None)))%Q) /\
  (forall p, In p (cells m) -> before p (max_loc (minMaxLoc m None)) ->
             (value_at m p < value_at m (max_loc (minMaxLoc m None)))%Q).
Proof.
  intro Hne. rewrite <- (selection_None m) in Hne.
  destruct (minMaxLoc_first_max m None Hne) as (l1 & l2 & E & V & S1 & S2).
  rewrite selection_None in E.
  pose proof (cells_sorted m) as Hs. rewrite E in Hs.
  destruct (StronglySorted_split _ _ _ _ Hs) as (B1 & B2).
  split; [rewrite E; apply in_or_app; right; now left |].
  split; [exact V |]. rewrite <- V. split.
  - intros p Hp. rewrite E in Hp. apply in_app_or in Hp.
    destruct Hp as [Hp | [<- | Hp]].
    + apply Qlt_le_weak. now apply S1.
    + rewrite V. apply Qle_refl.
    + now apply S2.
  - intros p Hp Hb. rewrite E in Hp. apply in_app_or in Hp.
    destruct Hp as [Hp | [<- | Hp]].
    + now apply S1.
    + exfalso. unfold before in Hb. lia.
    + exfalso. specialize (B2 p Hp). unfold before in Hb, B2. lia.
Qed.


(** ** Searching for the template's own patch *)



(** ** Searching a region of the image *)




End SearchProperties.

(** ** Examples *)

(** The templates of the examples are what [InitTrackerData] stores,
    whatever the rounding. *)
Lemma spot_template_init (fl : Q -> Q) :
  rounding fl 4 ->
  InitTrackerData fl no_template spot (circle 1 1 1) = Ok (true, spot_template).
Proof.
  intro Hfl.
  apply (InitTrackerData_integer fl 4 Hfl no_template spot 1 1 1); cbn; lia.
Qed.




Lemma odd_template_init (fl : Q -> Q) :
  rounding fl 4 ->
  InitTrackerData fl no_template spot (circle (3 # 2) (3 # 2) (3 # 2))
  = Ok (true, odd_template).
Proof.
  intro Hfl.
  assert (Hp : patch_rect fl (circle (3 # 2) (3 # 2) (3 # 2)) = mkRect 0 0 3 3).
  { unfold patch_rect. cbn [circle center radius fx fy].
    rewrite (trunc_eq_int (fl ((3 # 2) - (3 # 2))%Q) 0)
      by (apply (fl_int fl 4 Hfl); [lia | reflexivity]).
    rewrite (trunc_eq_int (fl (2 * (3 # 2))%Q) 3)
      by (apply (fl_int fl 4 Hfl); [lia | reflexivity]).
    reflexivity. }
  rewrite (InitTrackerData_stores fl no_template spot (circle (3 # 2) (3 # 2) (3 # 2))).
  - unfold patch_of. rewrite Hp. reflexivity.
  - reflexivity.
  - unfold accepted. cbn [circle center radius fx fy spot rows cols].
    assert (F : (2 <= fl (of_int fl 4 - (3 # 2))%Q)%Q).
    { apply (fl_ge_int fl 4 Hfl _ 2); [lia |].
      rewrite (of_int_exact fl 4 Hfl) by lia. unfold Qle; simpl; lia. }
    repeat split; try (unfold Qle; simpl; lia); lra.
  - rewrite Hp. reflexivity.
Qed.

Lemma spot_scores :
  map (value_at (matchTemplate cv_score (view spot (Rect_of_size spot))
                               (search_template spot_template) method))
      [mkPoint 0 0; mkPoint 1 0; mkPoint 2 0;
       mkPoint 0 1; mkPoint 1 1; mkPoint 2 1;
       mkPoint 0 2; mkPoint 1 2; mkPoint 2 2]
  = [1; -1 # 3; 0; -1 # 3; -1 # 3; 0; 0; 0; 0]%Q.
Proof. vm_compute. reflexivity. Qed.



(** C6, as stated, fails in two ways.  With a mask that selects nothing and
    the threshold -1, [minMaxLoc] reports the values 0 at (-1, -1), the
    confidence 0 exceeds the threshold, and a mark is returned, at the pixel
    (0, 0), which the mask excludes.  With the 3x3 template of the circle of
    radius 3/2, the shifted mask is 3x3 and the score map 2x2: the assertion
    on the rows fails although the small-roi test has passed. *)
Lemma Search_mask_counterexample :
  (forall score cv_sqrt,
      Search score cv_sqrt spot spot_template None (Some (blank 4 4)) (-1)
      = Ok (Some (circle 0 0 1))) /\
  value_at (blank 4 4) (pixel_of (center (circle 0 0 1))) = 0 /\
  (forall fl : Q -> Q, rounding fl 4 ->
     InitTrackerData fl no_template spot (circle (3 # 2) (3 # 2) (3 # 2))
     = Ok (true, odd_template)) /\
  small_roi odd_template (extended_roi_of spot odd_template None) = false /\
  forall score cv_sqrt,
    Search score cv_sqrt spot odd_template None (Some (ones 4 4)) 0 = Abort AssertFailed.
Proof.
  split; [intros; reflexivity |]. split; [reflexivity |].
  split; [exact odd_template_init |].
  split; [reflexivity |]. intros; reflexivity.
Qed.

(** [spot] searched with a mask that selects every position: the circle is
    found at (1, 1), which the mask selects. *)
Lemma Search_mask_alignment_witness :
  exists found,
    Search cv_score sqrt_model spot spot_template None (Some (ones 4 4)) 0
    = Ok (Some found) /\
    value_at (ones 4 4) (pixel_of (center found)) <> 0.
Proof.
  destruct (Search_mask_alignment cv_score sqrt_model spot (ones 4 4) spot_template None 0)
    as (m & sm & _ & _ & _ & _ & _ & _ & _ & Hfound & _);
    try reflexivity; try (cbn; lia).
  exists (circle 1 1 1).
  assert (Hs : Search cv_score sqrt_model spot spot_template None (Some (ones 4 4)) 0
               = Ok (Some (circle 1 1 1))) by (vm_compute; reflexivity).
  split; [exact Hs |].
  destruct (Hfound (circle 1 1 1)) as (loc & _ & _ & _ & Hv).
  - left. unfold Qle; simpl; lia.
  - exact Hs.
  - exact Hv.
Defined.

(** [spot] searched for its template: the confidence is 1 - (-1/3) = 4/3;
    the mark found with threshold 1 is found with threshold 1/2, and nothing
    is found with threshold 2. *)
Lemma Search_confidence_threshold_witness :
  Search cv_score sqrt_model spot spot_template None None (1 # 2)
  = Ok (Some (circle 1 1 1)) /\
  Search cv_score sqrt_model spot spot_template None None 2 = Ok None.
Proof.
  destruct (Search_confidence_threshold cv_score sqrt_model spot spot_template None None)
    as (Hconf & Hdown & _).
  split.
  - apply (Hdown (1 # 2)%Q 1%Q (circle 1 1 1)).
    + unfold Qle; simpl; lia.
    + vm_compute; reflexivity.
  - destruct (Hconf (matchTemplate cv_score (view spot (Rect_of_size spot))
                                   (search_template spot_template) method) None)
      as (_ & _ & Hthr); [reflexivity | reflexivity | reflexivity |].
    apply (proj1 (Hthr 2%Q)). vm_compute. discriminate.
Defined.

(** In [spot] the rectangle of one pixel at (1, 1), grown by the half-size 1
    of the template, is the 3x3 block at the origin, and the score map of
    the 2x2 template on it is 2x2; the search of that rectangle is decided
    on this map and finds the circle at (1, 1); a rectangle at the far
    corner leaves too little and the search returns false. *)
Lemma Search_extended_region_witness :
  extended_roi_of spot spot_template (Some (mkRect 1 1 1 1)) = mkRect 0 0 3 3 /\
  (exists m,
      match_result_of cv_score spot spot_template (mkRect 0 0 3 3) = Ok m /\
      rows m = 2 /\ cols m = 2) /\
  Search cv_score sqrt_model spot spot_template (Some (mkRect 1 1 1 1)) None 0
  = Ok (Some (circle 1 1 1)) /\
  Search cv_score sqrt_model spot spot_template (Some (mkRect 4 4 1 1)) None 0 = Ok None.
Proof.
  split; [| split; [| split]].
  - destruct (Search_extended_region cv_score sqrt_model spot spot_template
                (Some (mkRect 1 1 1 1)) None 0) as (He & _); try (cbn; lia).
    rewrite He. reflexivity.
  - destruct (Search_extended_region cv_score sqrt_model spot spot_template
                (Some (mkRect 1 1 1 1)) None 0) as (_ & _ & _ & Hm); try (cbn; lia).
    destruct Hm as (m & Hm & Hr & Hc & _); try (cbn; lia).
    exists m. split; [exact Hm |]. split; [exact Hr | exact Hc].
  - destruct (Search_extended_region cv_score sqrt_model spot spot_template
                (Some (mkRect 1 1 1 1)) None 0) as (_ & _ & _ & Hm); try (cbn; lia).
    destruct Hm as (m & Hm & _ & _ & _ & Hs); try (cbn; lia).
    rewrite Hs. injection Hm as <-. vm_compute. reflexivity.
  - destruct (Search_extended_region cv_score sqrt_model spot spot_template
                (Some (mkRect 4 4 1 1)) None 0) as (_ & _ & Hsmall & _); try (cbn; lia).
    apply Hsmall. left. cbn. lia.
Defined.



(** ** Application: more on the pool and the pipeline *)

Lemma devices_lower (first : Z) (count : nat) (d : Z) :
  In d (devices first count) -> first <= d < first + Z.of_nat count.
Proof.
  unfold devices. intro H. apply in_map_iff in H. destruct H as (i & <- & Hi).
  apply in_seq in Hi. lia.
Qed.

Lemma devices_sorted (count : nat) :
  forall first, StronglySorted Z.lt (devices first count).
Proof.
  induction count as [| count IH]; intro first.
  - constructor.
  - rewrite devices_S. constructor; [apply IH |].
    apply Forall_forall. intros d Hd. apply devices_lower in Hd. lia.
Qed.

Lemma filter_sorted (f : Z -> bool) (l : list Z) :
  StronglySorted Z.lt l -> StronglySorted Z.lt (filter f l).
Proof.
  induction l as [| a l IH]; simpl; intro H; [constructor |].
  inversion H as [| ? ? Hs Hf]; subst.
  destruct (f a); [| now apply IH].
  constructor; [now apply IH |].
  apply Forall_forall. intros d Hd. apply filter_In in Hd.
  rewrite Forall_forall in Hf. apply Hf. tauto.
Qed.

Lemma sorted_NoDup (l : list Z) : StronglySorted Z.lt l -> NoDup l.
Proof.
  induction l as [| a l IH]; intro H; [constructor |].
  inversion H as [| ? ? Hs Hf]; subst. constructor; [| now apply IH].
  intro Hin. rewrite Forall_forall in Hf. specialize (Hf a Hin). lia.
Qed.

Lemma all_owning_map_Some (l : list VideoProvider) : all_owning (map Some l).
Proof.
  intros slot Hs. apply in_map_iff in Hs. destruct Hs as (p & <- & _). discriminate.
Qed.

(** Whatever the bounds, a scan that ends has probed some devices in a row. *)
Lemma scan_devices_probed (working : Z -> bool) (skip tests : Z) :
  forall (fuel : nat) (device errors : Z) (app app' : Application),
    scan_devices working fuel skip tests device errors app = Some app' ->
    exists count : nat, (1 <= count)%nat /\ probed working device count app app'.
Proof.
  induction fuel as [| fuel IH]; simpl; intros device errors app app' H; [discriminate |].
  destruct (working device) eqn:W.
  - destruct (tests <=? device + 1).
    + injection H as <-. exists 1%nat. split; [lia | now apply probed_one_working].
    + destruct (IH _ _ _ _ H) as (count & Hc & Hp).
      exists (S count). split; [lia |].
      eapply probed_step; [now apply probed_one_working | exact Hp].
  - destruct (skip <=? errors + 1).
    + injection H as <-. exists 1%nat. split; [lia | now apply probed_one_broken].
    + destruct (tests <=? device + 1).
      * injection H as <-. exists 1%nat. split; [lia | now apply probed_one_broken].
      * destruct (IH _ _ _ _ H) as (count & Hc & Hp).
        exists (S count). split; [lia |].
        eapply probed_step; [now apply probed_one_broken | exact Hp].
Qed.

(** The pool a discovery leaves holds the returned sources, each once. *)
Lemma AvailableVideoProviders_pool (kMaxArity : Z) (working : Z -> bool)
      (app app' : Application) (sources : list VideoProvider) :
  AvailableVideoProviders kMaxArity working app = Some (app', sources) ->
  available_providers_ app' = map Some sources /\
  StronglySorted Z.lt sources /\
  (forall d, In d sources -> working d = true /\ 0 <= d).
Proof.
  unfold AvailableVideoProviders. intro H.
  destruct (scan_devices working (S (Z.to_nat (2 * kMaxArity))) kMaxArity
              (2 * kMaxArity) 0 0 (InitializeEmpty app)) as [a |] eqn:E; [| discriminate].
  injection H as <- <-.
  destruct (scan_devices_probed _ _ _ _ _ _ _ _ E) as (count & _ & Hp).
  destruct Hp as (_ & P2 & _). simpl in P2. rewrite P2, owned_map_Some.
  split; [reflexivity |]. split.
  - apply filter_sorted, devices_sorted.
  - intros d Hd. apply filter_In in Hd. destruct Hd as (Hd & Hw).
    apply devices_lower in Hd. split; [exact Hw | lia].
Qed.

Lemma move_providers_distinct (providers : list VideoProvider) :
  forall slots used slots' used',
    NoDup (owned slots) ->
    move_providers providers slots used = Ok (slots', used') ->
    NoDup providers.
Proof.
  induction providers as [| p rest IH]; simpl; intros slots used slots' used' Hnd H.
  - constructor.
  - destruct (release p slots) as [s1 |] eqn:E; [| discriminate].
    destruct (release_NoDup _ _ _ Hnd E) as (N1 & N2).
    destruct (move_providers_Ok _ _ _ _ _ H) as (_ & M2 & _).
    constructor; [| exact (IH _ _ _ _ N1 H)].
    intro Hin. apply N2, M2, Hin.
Qed.

Lemma Initialize_Abort (providers : list VideoProvider) (app : Application) (f : failure) :
  Initialize providers app = Abort f -> f = AssertFailed.
Proof.
  unfold Initialize. 
  destruct (move_providers providers (available_providers_ app) [])
    as [[slots used] | f0] eqn:E; simpl.
  - destruct (move_providers_Ok _ _ _ _ _ E) as (Hu & _). simpl in Hu. subst used.
    unfold SetupController. destruct providers as [| p ps]; simpl.
    + intro H. injection H as <-. reflexivity.
    + discriminate.
  - intro H. injection H as <-. revert E. generalize (@nil VideoProvider).
    generalize (available_providers_ app).
    induction providers as [| p rest IH]; simpl; intros slots used E; [discriminate |].
    destruct (release p slots) as [s1 |]; [exact (IH _ _ E) |].
    injection E as <-. reflexivity.
Qed.

(** X1.  The pool owning each provider once, [Initialize] completes exactly
    when the chosen providers are at least one, all different and all owned
    by the pool; in every other case it fails an assertion. *)
Theorem Initialize_succeeds_iff (providers : list VideoProvider) (app : Application) :
  NoDup (owned (available_providers_ app)) ->
  ((exists app', Initialize providers app = Ok app') <->
   providers <> [] /\ NoDup providers /\
   forall p, In p providers -> In p (owned (available_providers_ app))) /\
  ((forall app', Initialize providers app <> Ok app') ->
   Initialize providers app = Abort AssertFailed).
Proof.
  intro Hnd. split.
  - split.
    + intros (app' & H).
      destruct (Initialize_Ok _ _ _ H) as (slots & Hm & Hne & _).
      split; [exact Hne |]. split.
      * exact (move_providers_distinct _ _ _ _ _ Hnd Hm).
      * destruct (move_providers_Ok _ _ _ _ _ Hm) as (_ & M2 & _). exact M2.
    + intros (Hne & Hd & Hin). now apply Initialize_total.
  - intro Hno. destruct (Initialize providers app) as [app' | f] eqn:E.
    + exfalso. exact (Hno app' eq_refl).
    + f_equal. exact (Initialize_Abort _ _ _ E).
Qed.

(** X2.  In every state the application reaches: the pool owns each provider
    once and has no released slot; without a controller there is no
    converter and the arity is 0; with a controller the pool is empty, the
    controller holds at least one provider, each once, the arity is their
    number, and the converter is one built for that arity. *)
Theorem reachable_coherent (app : Application) : reachable app -> coherent app.
Proof.
  induction 1 as [| app Hr IH | k w app app' sources Hr IH Hd
                  | providers app app' Hr IH Hi | d app app' Hr IH Hs].
  - unfold coherent. simpl. repeat split; try constructor. intros slot [].
  - unfold coherent. simpl. repeat split; try constructor. intros slot [].
  - destruct (AvailableVideoProviders_keeps _ _ _ _ _ Hd) as (Ha & Hc & Hv & _).
    destruct (AvailableVideoProviders_pool _ _ _ _ _ Hd) as (Hp & Hs & _).
    unfold coherent. rewrite Hp, Hc, owned_map_Some.
    split; [now apply sorted_NoDup |]. split; [apply all_owning_map_Some |].
    split; assumption.
  - destruct IH as (Hnd & _).
    destruct (Initialize_Ok _ _ _ Hi)
      as (slots & Hm & Hne & Ha & Hav & Hctl & Hcv & _).
    unfold coherent. rewrite Hav, Hctl. simpl.
    split; [constructor |]. split; [intros slot [] |].
    split; [reflexivity |]. split; [exact Hne |].
    split; [exact (move_providers_distinct _ _ _ _ _ Hnd Hm) |].
    split; [exact Ha |]. split; [now rewrite Ha |]. now rewrite Hcv, Ha.
  - unfold SetCalibrationData in Hs.
    destruct (controller_ app) as [c0 |] eqn:E; [| discriminate].
    destruct (controller_Arity c0 =? Arity d); simpl in Hs; [| discriminate].
    injection Hs as <-. unfold coherent in *. simpl. rewrite E in *. exact IH.
Qed.

Lemma assembled_pool_empty (app : Application) :
  reachable app -> controller_ app <> None -> available_providers_ app = [].
Proof.
  induction 1 as [| app Hr IH | k w app app' sources Hr IH Hd
                  | providers app app' Hr IH Hi | d app app' Hr IH Hs]; intro Hc.
  - reflexivity.
  - reflexivity.
  - destruct (AvailableVideoProviders_keeps _ _ _ _ _ Hd) as (_ & Hn & _). congruence.
  - destruct (Initialize_Ok _ _ _ Hi) as (_ & _ & _ & _ & Hav & _). exact Hav.
  - unfold SetCalibrationData in Hs.
    destruct (controller_ app) as [c0 |] eqn:E; [| discriminate].
    destruct (controller_Arity c0 =? Arity d); simpl in Hs; [| discriminate].
    injection Hs as <-. simpl in *. apply IH. discriminate.
Qed.

(** X3.  Once a pipeline is assembled, [Initialize] cannot assemble another
    one: in a reachable state with a controller the pool is empty and every
    call fails an assertion, whatever providers are chosen.  A discovery has
    to come first. *)
Theorem Initialize_needs_discovery (providers : list VideoProvider) (app : Application) :
  reachable app -> controller_ app <> None ->
  Initialize providers app = Abort AssertFailed.
Proof.
  intros Hr Hc. pose proof (assembled_pool_empty app Hr Hc) as Hav.
  destruct providers as [| p ps].
  - unfold Initialize. rewrite Hav. reflexivity.
  - unfold Initialize. rewrite (move_providers_missing (p :: ps) _ []); [reflexivity |].
    exists p. rewrite Hav. simpl. tauto.
Qed.

(** ** Application: the order of events *)

Lemma quiet_app (e1 e2 : list Event) : quiet e1 -> quiet e2 -> quiet (e1 ++ e2).
Proof. intros H1 H2 d Hin. apply in_app_or in Hin. destruct Hin; [eapply H1 | eapply H2]; eauto. Qed.

Lemma quiet_Delete (l : list VideoProvider) : quiet (map Delete l).
Proof. intros d Hin. apply in_map_iff in Hin. destruct Hin as (p & E & _). discriminate. Qed.

Lemma InitializeEmpty_events (app : Application) :
  events (InitializeEmpty app)
  = events app ++ map Delete (owned (available_providers_ app))
    ++ retire_converter app ++ retire_controller app ++ [Emit SetupPipeline].
Proof.
  unfold InitializeEmpty, retire_converter, retire_controller. simpl.
  rewrite <- !app_assoc. reflexivity.
Qed.

Lemma quiet_retire (app : Application) :
  quiet (retire_converter app) /\ quiet (retire_controller app).
Proof.
  unfold retire_converter, retire_controller.
  split; [destruct (converter_ app) | destruct (controller_ app)];
    intros d Hin; simpl in Hin; intuition discriminate.
Qed.

Lemma Initialize_events (providers : list VideoProvider) (app app' : Application) :
  Initialize providers app = Ok app' ->
  exists slots,
    move_providers providers (available_providers_ app) [] = Ok (slots, providers) /\
    events app'
    = events app ++ map Delete (owned slots)
      ++ [Connect Controller_CalibrationDataReady_Application_SetCalibrationData;
          Connect Application_CalibrationDataReady_Controller_SetCalibrationData]
      ++ retire_controller app ++ retire_converter app
      ++ [Connect Controller_FramesetReady_Converter_ProcessFrameset;
          Connect Controller_PositsetReady_Converter_ProcessPositset;
          Connect Converter_MarkCreated_Controller_SetMark]
      ++ [Emit SetupPipeline; InvokeStart false].
Proof.
  unfold Initialize. intro H.
  destruct (move_providers providers (available_providers_ app) [])
    as [[slots used] | f] eqn:E; simpl in H; [| discriminate].
  destruct (move_providers_Ok _ _ _ _ _ E) as (Hu & _). simpl in Hu. subst used.
  exists slots. split; [reflexivity |].
  unfold SetupController in H. simpl in H.
  destruct providers as [| p ps]; [discriminate |].
  simpl in H. injection H as <-.
  unfold retire_controller, retire_converter. simpl.
  rewrite <- !app_assoc. reflexivity.
Qed.

Lemma AvailableVideoProviders_events (kMaxArity : Z) (working : Z -> bool)
      (app app' : Application) (sources : list VideoProvider) :
  AvailableVideoProviders kMaxArity working app = Some (app', sources) ->
  exists deleted, events app' = events (InitializeEmpty app) ++ map Delete deleted.
Proof.
  unfold AvailableVideoProviders. intro H.
  destruct (scan_devices working (S (Z.to_nat (2 * kMaxArity))) kMaxArity
              (2 * kMaxArity) 0 0 (InitializeEmpty app)) as [a |] eqn:E; [| discriminate].
  injection H as <- _.
  destruct (scan_devices_probed _ _ _ _ _ _ _ _ E) as (count & _ & Hp).
  destruct Hp as (_ & _ & _ & _ & _ & P6). eexists. exact P6.
Qed.

Lemma last_broadcast_more (evs ext : list Event) (d : CalibrationData) :
  last_broadcast evs d -> quiet ext -> last_broadcast (evs ++ ext) d.
Proof.
  intros (l1 & l2 & -> & Hq) He. exists l1, (l2 ++ ext). split.
  - rewrite <- app_assoc. reflexivity.
  - now apply quiet_app.
Qed.

(** X4.  In every state the application reaches, the calibration data it
    holds is the data it broadcast last with CalibrationDataReady; while it
    holds none, it has broadcast none. *)
Theorem stored_calibration_is_last_broadcast (app : Application) :
  reachable app ->
  match calibration_data_ app with
  | Some d => last_broadcast (events app) d
  | None => quiet (events app)
  end.
Proof.
  assert (Hext : forall evs ext o,
             quiet ext ->
             match o with Some d => last_broadcast evs d | None => quiet evs end ->
             match o with
             | Some d => last_broadcast (evs ++ ext) d
             | None => quiet (evs ++ ext)
             end).
  { intros evs ext [d |] He H; [now apply last_broadcast_more | now apply quiet_app]. }
  assert (Hempty : forall a, quiet (map Delete (owned (available_providers_ a))
                                    ++ retire_converter a ++ retire_controller a
                                    ++ [Emit SetupPipeline])).
  { intro a. destruct (quiet_retire a) as (Q1 & Q2).
    apply quiet_app; [apply quiet_Delete |].
    apply quiet_app; [exact Q1 |]. apply quiet_app; [exact Q2 |].
    intros d Hin. simpl in Hin. intuition discriminate. }
  induction 1 as [| app Hr IH | k w app app' sources Hr IH Hd
                  | providers app app' Hr IH Hi | d app app' Hr IH Hs].
  - intros d [].
  - rewrite InitializeEmpty_events.
    change (calibration_data_ (InitializeEmpty app)) with (calibration_data_ app).
    apply Hext; [apply Hempty | exact IH].
  - destruct (AvailableVideoProviders_keeps _ _ _ _ _ Hd) as (_ & _ & _ & Hcal).
    destruct (AvailableVideoProviders_events _ _ _ _ _ Hd) as (deleted & Hev).
    rewrite Hcal, Hev, InitializeEmpty_events.
    apply Hext; [apply quiet_Delete |]. apply Hext; [apply Hempty | exact IH].
  - destruct (Initialize_Ok _ _ _ Hi) as (_ & _ & _ & _ & _ & _ & _ & Hcal & _).
    destruct (Initialize_events _ _ _ Hi) as (slots & _ & Hev).
    rewrite Hcal, Hev. apply Hext; [| exact IH].
    destruct (quiet_retire app) as (Q1 & Q2).
    apply quiet_app; [apply quiet_Delete |].
    apply quiet_app; [intros d Hin; simpl in Hin; intuition discriminate |].
    apply quiet_app; [exact Q2 |]. apply quiet_app; [exact Q1 |].
    apply quiet_app; intros d Hin; simpl in Hin; intuition discriminate.
  - unfold SetCalibrationData in Hs.
    destruct (controller_ app) as [c0 |]; [| discriminate].
    destruct (controller_Arity c0 =? Arity d); simpl in Hs; [| discriminate].
    injection Hs as <-. simpl.
    exists (events app), []. split; [reflexivity | intros d' []].
Qed.

(** X5.  When [Initialize] completes, what it did ends with the emission of
    SetupPipeline followed by the queued start of the controller; the five
    connections were all made before, an old controller or converter was
    handed to destruction before, and nothing was emitted or started
    earlier in the call. *)
Theorem Initialize_starts_last (providers : list VideoProvider) (app app' : Application) :
  Initialize providers app = Ok app' ->
  exists done,
    events app' = events app ++ done ++ [Emit SetupPipeline; InvokeStart false] /\
    (forall c, In (Connect c) done) /\
    (forall old, controller_ app = Some old -> In (DestroyController old) done) /\
    (forall old, converter_ app = Some old -> In (DestroyConverter old) done) /\
    (forall s, ~ In (Emit s) done) /\
    (forall b, ~ In (InvokeStart b) done).
Proof.
  intro H. destruct (Initialize_events _ _ _ H) as (slots & _ & Hev).
  exists (map Delete (owned slots)
          ++ [Connect Controller_CalibrationDataReady_Application_SetCalibrationData;
              Connect Application_CalibrationDataReady_Controller_SetCalibrationData]
          ++ retire_controller app ++ retire_converter app
          ++ [Connect Controller_FramesetReady_Converter_ProcessFrameset;
              Connect Controller_PositsetReady_Converter_ProcessPositset;
              Connect Converter_MarkCreated_Controller_SetMark]).
  split; [rewrite Hev, <- !app_assoc; reflexivity |].
  assert (Hno : forall e,
             (forall p, e <> Delete p) -> (forall c, e <> Connect c) ->
             (forall c, e <> DestroyController c) -> (forall c, e <> DestroyConverter c) ->
             ~ In e (map Delete (owned slots)
                     ++ [Connect Controller_CalibrationDataReady_Application_SetCalibrationData;
                         Connect Application_CalibrationDataReady_Controller_SetCalibrationData]
                     ++ retire_controller app ++ retire_converter app
                     ++ [Connect Controller_FramesetReady_Converter_ProcessFrameset;
                         Connect Controller_PositsetReady_Converter_ProcessPositset;
                         Connect Converter_MarkCreated_Controller_SetMark])).
  { intros e H1 H2 H3 H4 Hin.
    apply in_app_or in Hin. destruct Hin as [Hin | Hin].
    { apply in_map_iff in Hin. destruct Hin as (p & E & _). exact (H1 p (eq_sym E)). }
    apply in_app_or in Hin. destruct Hin as [Hin | Hin].
    { simpl in Hin. destruct Hin as [E | [E | []]]; exact (H2 _ (eq_sym E)). }
    apply in_app_or in Hin. destruct Hin as [Hin | Hin].
    { unfold retire_controller in Hin. destruct (controller_ app); simpl in Hin;
        [destruct Hin as [E | []]; exact (H3 _ (eq_sym E)) | contradiction]. }
    apply in_app_or in Hin. destruct Hin as [Hin | Hin].
    { unfold retire_converter in Hin. destruct (converter_ app); simpl in Hin;
        [destruct Hin as [E | []]; exact (H4 _ (eq_sym E)) | contradiction]. }
    simpl in Hin. destruct Hin as [E | [E | [E | []]]]; exact (H2 _ (eq_sym E)). }
  split; [| split; [| split; [| split]]].
  - intros c. apply in_or_app. right.
    destruct c; simpl; try tauto;
      right; right; apply in_or_app; right; apply in_or_app; right; simpl; tauto.
  - intros old E. apply in_or_app. right. apply in_or_app. right.
    apply in_or_app. left. unfold retire_controller. rewrite E. now left.
  - intros old E. apply in_or_app. right. apply in_or_app. right.
    apply in_or_app. right. apply in_or_app. left.
    unfold retire_converter. rewrite E. now left.
  - intros s. apply Hno; discriminate.
  - intros b. apply Hno; discriminate.
Qed.

(** ** Application: discovery, further *)

Lemma In_devices (first : Z) (count : nat) (d : Z) :
  In d (devices first count) <-> first <= d < first + Z.of_nat count.
Proof.
  split; [apply devices_lower |]. intro H. unfold devices. apply in_map_iff.
  exists (Z.to_nat (d - first)). split; [lia |]. apply in_seq. lia.
Qed.

Lemma filter_all {A : Type} (f : A -> bool) (l : list A) :
  (forall a, In a l -> f a = true) -> filter f l = l.
Proof.
  induction l as [| a l IH]; simpl; intro H; [reflexivity |].
  rewrite (H a (or_introl eq_refl)). f_equal. apply IH. intros b Hb. apply H. now right.
Qed.

Lemma filter_none {A : Type} (f : A -> bool) (l : list A) :
  (forall a, In a l -> f a = false) -> filter f l = [].
Proof.
  induction l as [| a l IH]; simpl; intro H; [reflexivity |].
  rewrite (H a (or_introl eq_refl)). apply IH. intros b Hb. apply H. now right.
Qed.

Lemma devices_length (first : Z) (count : nat) : length (devices first count) = count.
Proof. unfold devices. rewrite length_map, length_seq. reflexivity. Qed.

Lemma misses_le (working : Z -> bool) (first : Z) (count : nat) :
  misses working first count <= Z.of_nat count.
Proof.
  unfold misses. pose proof (filter_length_le (broken working) (devices first count)) as H.
  rewrite devices_length in H. lia.
Qed.

(** What a discovery with kMaxArity >= 1 has probed. *)
Lemma AvailableVideoProviders_count (kMaxArity : Z) (working : Z -> bool)
      (app app' : Application) (sources : list VideoProvider) :
  1 <= kMaxArity ->
  AvailableVideoProviders kMaxArity working app = Some (app', sources) ->
  exists count : nat,
    probed working 0 count (InitializeEmpty app) app' /\
    sources = filter working (devices 0 count) /\
    (1 <= count)%nat /\ Z.of_nat count <= 2 * kMaxArity /\
    misses working 0 (count - 1) < kMaxArity /\
    (misses working 0 count = kMaxArity \/ Z.of_nat count = 2 * kMaxArity).
Proof.
  intros Hk. unfold AvailableVideoProviders.
  destruct (scan_devices_spec working kMaxArity (2 * kMaxArity)
              (S (Z.to_nat (2 * kMaxArity))) 0 0 (InitializeEmpty app))
    as (count & a & Hs & Hc & Hp & H1 & H2 & H3 & H4); try lia.
  rewrite Hs. intro H. injection H as <- <-.
  exists count. split; [exact Hp |].
  split; [| repeat split; lia].
  destruct Hp as (_ & P2 & _). rewrite P2.
  change (available_providers_ (InitializeEmpty app)) with (@nil (option VideoProvider)).
  rewrite app_nil_l. apply owned_map_Some.
Qed.

(** X6.  With kMaxArity >= 1, the sources a discovery returns are devices
    that work, in increasing order (so each once), all below 2 kMaxArity,
    hence at most 2 kMaxArity of them; no device that works is left out below
    a returned one; and they are exactly what the pool then owns. *)
Theorem AvailableVideoProviders_sources (kMaxArity : Z) (working : Z -> bool)
        (app app' : Application) (sources : list VideoProvider) :
  1 <= kMaxArity ->
  AvailableVideoProviders kMaxArity working app = Some (app', sources) ->
  StronglySorted Z.lt sources /\
  (forall d, In d sources -> working d = true /\ 0 <= d < 2 * kMaxArity) /\
  Z.of_nat (length sources) <= 2 * kMaxArity /\
  (forall d s, In s sources -> 0 <= d <= s -> working d = true -> In d sources) /\
  available_providers_ app' = map Some sources.
Proof.
  intros Hk H.
  destruct (AvailableVideoProviders_count _ _ _ _ _ Hk H)
    as (count & _ & Hs & Hc1 & Hc2 & _).
  destruct (AvailableVideoProviders_pool _ _ _ _ _ H) as (Hp & Hsorted & _).
  split; [exact Hsorted |]. split; [| split; [| split; [| exact Hp]]].
  - intros d Hd. rewrite Hs in Hd. apply filter_In in Hd. destruct Hd as (Hd & Hw).
    apply In_devices in Hd. split; [exact Hw | lia].
  - rewrite Hs. pose proof (filter_length_le working (devices 0 count)) as Hl.
    rewrite devices_length in Hl.
    apply Z.le_trans with (Z.of_nat count); [apply Nat2Z.inj_le; exact Hl | exact Hc2].
  - intros d s Hsin Hd Hw. rewrite Hs in *. apply filter_In in Hsin.
    destruct Hsin as (Hsin & _). apply In_devices in Hsin.
    apply filter_In. split; [apply In_devices; lia | exact Hw].
Qed.

(** X7.  With kMaxArity >= 1: when the devices 0 to 2 kMaxArity - 1 all
    work, discovery returns all of them, twice kMaxArity sources; when the
    devices 0 to kMaxArity - 1 all fail, it returns no source, having probed
    and deleted exactly these. *)
Theorem AvailableVideoProviders_extremes (kMaxArity : Z) (working : Z -> bool)
        (app app' : Application) (sources : list VideoProvider) :
  1 <= kMaxArity ->
  AvailableVideoProviders kMaxArity working app = Some (app', sources) ->
  ((forall d, 0 <= d < 2 * kMaxArity -> working d = true) ->
   sources = devices 0 (Z.to_nat (2 * kMaxArity))) /\
  ((forall d, 0 <= d < kMaxArity -> working d = false) ->
   sources = [] /\
   events app' = events (InitializeEmpty app)
                 ++ map Delete (devices 0 (Z.to_nat kMaxArity))).
Proof.
  intros Hk H.
  destruct (AvailableVideoProviders_count _ _ _ _ _ Hk H)
    as (count & Hp & Hs & Hc1 & Hc2 & Hm1 & Hm2).
  split.
  - intro Hall.
    assert (Hw : forall d, In d (devices 0 count) -> working d = true).
    { intros d Hd. apply In_devices in Hd. apply Hall. lia. }
    assert (Hz : misses working 0 count = 0).
    { unfold misses. rewrite filter_none; [reflexivity |].
      intros d Hd. unfold broken. now rewrite (Hw d Hd). }
    assert (Hcount : count = Z.to_nat (2 * kMaxArity)) by lia.
    rewrite Hs, filter_all by exact Hw. now rewrite Hcount.
  - intro Hnone.
    assert (Hcount : count = Z.to_nat kMaxArity).
    { assert (Hprev : misses working 0 (count - 1) = Z.of_nat (count - 1)).
      { unfold misses. rewrite filter_all; [now rewrite devices_length |].
        intros d Hd. apply In_devices in Hd. unfold broken.
        rewrite Hnone; [reflexivity |].
        pose proof (misses_le working 0 (count - 1)).
        destruct (Z.lt_ge_cases d kMaxArity) as [Hlt | Hge]; [lia |].
        exfalso.
        assert (Hsub : misses working 0 (Z.to_nat kMaxArity) = kMaxArity).
        { unfold misses. rewrite filter_all; [rewrite devices_length; lia |].
          intros e He. apply In_devices in He. unfold broken.
          rewrite Hnone; [reflexivity | lia]. }
        assert (Hmono : misses working 0 (Z.to_nat kMaxArity)
                        <= misses working 0 (count - 1)).
        { unfold misses, devices.
          replace (count - 1)%nat
            with (Z.to_nat kMaxArity + (count - 1 - Z.to_nat kMaxArity))%nat by lia.
          rewrite seq_app, map_app, filter_app, length_app. lia. }
        lia. }
      destruct Hm2 as [Hm2 | Hm2]; [| lia].
      assert (Hlast : misses working 0 count <= misses working 0 (count - 1) + 1).
      { unfold misses, devices.
        replace count with ((count - 1) + 1)%nat at 1 by lia.
        rewrite seq_app, map_app, filter_app, length_app.
        pose proof (filter_length_le (broken working)
                      (map (fun i => 0 + Z.of_nat i) (seq (0 + (count - 1)) 1))) as Hl.
        simpl length in Hl at 2. lia. }
      lia. }
    assert (Hb : forall d, In d (devices 0 count) -> working d = false).
    { intros d Hd. apply In_devices in Hd. apply Hnone. lia. }
    split.
    + rewrite Hs. apply filter_none. exact Hb.
    + destruct Hp as (_ & _ & _ & _ & _ & P6). rewrite P6, filter_all, Hcount;
        [reflexivity |].
      intros d Hd. unfold broken. now rewrite (Hb d Hd).
Qed.

(** X8.  With kMaxArity <= 0 discovery still opens device 0, and only it:
    it returns the source 0 when that device works and no source
    otherwise. *)
Theorem AvailableVideoProviders_no_arity (kMaxArity : Z) (working : Z -> bool)
        (app : Application) :
  kMaxArity <= 0 ->
  exists app',
    AvailableVideoProviders kMaxArity working app
    = Some (app', if working 0 then [0] else []) /\
    probed working 0 1 (InitializeEmpty app) app'.
Proof.
  intro Hk. unfold AvailableVideoProviders.
  replace (Z.to_nat (2 * kMaxArity)) with 0%nat by lia.
  cbn [scan_devices]. destruct (working 0) eqn:W.
  - replace (2 * kMaxArity <=? 0 + 1) with true by (symmetry; apply Z.leb_le; lia).
    eexists. split; [reflexivity |]. now apply probed_one_working.
  - replace (kMaxArity <=? 0 + 1) with true by (symmetry; apply Z.leb_le; lia).
    eexists. split; [reflexivity |]. now apply probed_one_broken.
Qed.

(** X9.  After a discovery, any choice of at least one of the returned
    sources, each once, is accepted by [Initialize]: the arity becomes the
    number of chosen sources, the controller holds them, and the returned
    sources that were not chosen are deleted. *)
Theorem Initialize_after_discovery (kMaxArity : Z) (working : Z -> bool)
        (app idle : Application) (sources chosen : list VideoProvider) :
  AvailableVideoProviders kMaxArity working app = Some (idle, sources) ->
  chosen <> [] -> NoDup chosen -> incl chosen sources ->
  exists app',
    Initialize chosen idle = Ok app' /\
    arity_ app' = Z.of_nat (length chosen) /\
    controller_ app' = Some (mkController chosen (Z.of_nat (length chosen))) /\
    available_providers_ app' = [] /\
    forall s, In s sources -> ~ In s chosen -> In (Delete s) (events app').
Proof.
  intros Hd Hne Hnd Hincl.
  destruct (AvailableVideoProviders_pool _ _ _ _ _ Hd) as (Hp & _).
  destruct (Initialize_total chosen idle Hne Hnd) as (app' & Hi).
  { intros p Hpin. rewrite Hp, owned_map_Some. now apply Hincl. }
  exists app'. split; [exact Hi |].
  destruct (Initialize_Ok _ _ _ Hi)
    as (slots & Hm & _ & Ha & Hav & Hc & _ & _ & rest & Hev & _).
  split; [exact Ha |]. split; [exact Hc |]. split; [exact Hav |].
  intros s Hs Hn. rewrite Hev. apply in_or_app. right. apply in_or_app. left.
  apply in_map.
  destruct (move_providers_Ok _ _ _ _ _ Hm) as (_ & _ & _ & M4).
  apply M4; [exact Hn |]. rewrite Hp, owned_map_Some. exact Hs.
Qed.

(** X21.  A discovery begins by tearing down: the providers the pool owned
    are deleted, then an existing converter and an existing controller are
    handed to destruction, then SetupPipeline is emitted, and only after
    that devices are probed, those that fail being deleted.  It leaves no
    controller, no converter and the arity 0. *)
Theorem AvailableVideoProviders_tears_down (kMaxArity : Z) (working : Z -> bool)
        (app app' : Application) (sources : list VideoProvider) :
  AvailableVideoProviders kMaxArity working app = Some (app', sources) ->
  (exists failed,
      events app'
      = events app ++ map Delete (owned (available_providers_ app))
        ++ retire_converter app ++ retire_controller app ++ [Emit SetupPipeline]
        ++ map Delete failed /\
      forall d, In d failed -> working d = false) /\
  arity_ app' = 0 /\ controller_ app' = None /\ converter_ app' = None.
Proof.
  intro H. split; [| destruct (AvailableVideoProviders_keeps _ _ _ _ _ H); tauto].
  revert H. unfold AvailableVideoProviders.
  destruct (scan_devices working (S (Z.to_nat (2 * kMaxArity))) kMaxArity
              (2 * kMaxArity) 0 0 (InitializeEmpty app)) as [a |] eqn:E; [| discriminate].
  intro H. injection H as <- _.
  destruct (scan_devices_probed _ _ _ _ _ _ _ _ E) as (count & _ & Hp).
  destruct Hp as (_ & _ & _ & _ & _ & P6).
  exists (filter (broken working) (devices 0 count)). split.
  - rewrite P6, InitializeEmpty_events, <- !app_assoc. reflexivity.
  - intros d Hd. apply filter_In in Hd. destruct Hd as (_ & Hb).
    unfold broken in Hb. now apply negb_true_iff in Hb.
Qed.

(** ** InitTrackerData and Search, further *)

Lemma trunc_negative (q : Q) : (q <= -1)%Q -> trunc q <= -1.
Proof.
  destruct q as [n d]. unfold Qle, trunc. simpl. intro H.
  assert (Hn : n <= - Z.pos d) by lia.
  replace n with (- (- n)) by lia. rewrite Z.quot_opp_l by lia.
  assert (1 <= Z.quot (- n) (Z.pos d)).
  { rewrite Z.quot_div_nonneg by lia. apply Z.div_le_lower_bound; lia. }
  lia.
Qed.

(** X10.  The guard of [InitTrackerData] does not refuse a negative radius:
    for a circle mark with radius <= -1/2 that passes it, as the code
    evaluates it, the patch has a negative side, whatever the rounding, and
    taking it from the image raises the OpenCV error; the call neither
    returns nor stores a template. *)
Theorem InitTrackerData_negative_radius (fl : Q -> Q) (bound : Z) (data_ : TemplateData)
        (data : Mat pixel) (mark : Mark) :
  rounding fl bound -> 1 <= bound ->
  type mark = kCircle -> (2 * radius mark <= -1)%Q -> accepted fl data mark ->
  InitTrackerData fl data_ data mark = Abort CvError.
Proof.
  intros Hfl Hb Ht Hr Ha.
  rewrite (proj1 (InitTrackerData_circle fl data_ data mark Ht) Ha).
  assert (F : (fl (2 * radius mark) <= -1)%Q).
  { change (-1)%Q with (inject_Z (-1)). apply (fl_le_int fl bound Hfl); [lia | exact Hr]. }
  pose proof (trunc_negative _ F) as Hneg.
  unfold Mat_roi, roi_fits, patch_rect. cbn [x y width height].
  replace (0 <=? trunc (fl (2 * radius mark)%Q)) with false
    by (symmetry; apply Z.leb_gt; lia).
  rewrite andb_false_r. reflexivity.
Qed.

Section SearchFurther.

Variable score : TemplateMatchMode -> Mat pixel -> Mat pixel -> Q.
Variable cv_sqrt : Q -> Q.

Lemma not_small_cells (data : Mat pixel) (tpl : TemplateData) (roi : option Rect) :
  small_roi tpl (extended_roi_of data tpl roi) = false ->
  In (mkPoint 0 0)
     (cells (matchTemplate score (view data (extended_roi_of data tpl roi))
                           (search_template tpl) method)).
Proof.
  intro Hs. unfold small_roi in Hs. apply orb_false_iff in Hs. destruct Hs as (S1 & S2).
  apply Z.ltb_ge in S1. apply Z.ltb_ge in S2.
  apply In_cells. cbn [matchTemplate rows cols view px py]. lia.
Qed.

(** [Search] without a mask, in the three ways it can end. *)
Lemma Search_unmasked (data : Mat pixel) (tpl : TemplateData) (roi : option Rect)
      (threshold : Q) :
  0 <= rows data -> 0 <= cols data ->
  let ext := extended_roi_of data tpl roi in
  let m := matchTemplate score (view data ext) (search_template tpl) method in
  Search score cv_sqrt data tpl roi None threshold
  = if small_roi tpl ext then Ok None
    else if Qleb (max_val (minMaxLoc m None) - min_val (minMaxLoc m None)) threshold
         then Ok None
         else Ok (Some (mark_at tpl ext (max_loc (minMaxLoc m None)))).
Proof.
  intros Hr Hc ext m.
  destruct (small_roi tpl ext) eqn:Hs.
  - unfold Search. fold ext. rewrite Hs. reflexivity.
  - apply (Search_stages score cv_sqrt data tpl roi None threshold m None Hs).
    + apply match_result_of_Ok; assumption.
    + reflexivity.
Qed.

(** X11.  On an image (rows, columns >= 0) [Search] without a mask always
    returns: it raises no OpenCV error and fails no assertion, whatever the
    template, the region and the threshold. *)
Theorem Search_unmasked_returns (data : Mat pixel) (tpl : TemplateData)
        (roi : option Rect) (threshold : Q) :
  0 <= rows data -> 0 <= cols data ->
  exists outcome, Search score cv_sqrt data tpl roi None threshold = Ok outcome.
Proof.
  intros Hr Hc. rewrite (Search_unmasked data tpl roi threshold Hr Hc).
  destruct (small_roi tpl (extended_roi_of data tpl roi)); [eexists; reflexivity |].
  match goal with |- context [if ?c then _ else _] => destruct c end;
    eexists; reflexivity.
Qed.

(** X12.  A mark that [Search] finds without a mask is a circle with the
    template's radius whose centre is a pixel; the template laid with its
    top-left corner half its size before that pixel lies inside the extended
    region, hence inside the image. *)
Theorem Search_found_inside (data : Mat pixel) (tpl : TemplateData) (roi : option Rect)
        (threshold : Q) (found : Mark) :
  0 <= rows data -> 0 <= cols data ->
  0 <= rows (search_template tpl) -> 0 <= cols (search_template tpl) ->
  Search score cv_sqrt data tpl roi None threshold = Ok (Some found) ->
  type found = kCircle /\ radius found = tpl_radius tpl /\
  (fx (center found) == inject_Z (px (pixel_of (center found))))%Q /\
  (fy (center found) == inject_Z (py (pixel_of (center found))))%Q /\
  let ext := extended_roi_of data tpl roi in
  let corner := Point_sub (pixel_of (center found)) (half_size tpl) in
  x ext <= px corner /\
  px corner + cols (search_template tpl) <= x ext + width ext /\
  y ext <= py corner /\
  py corner + rows (search_template tpl) <= y ext + height ext /\
  roi_fits data (mkRect (px corner) (py corner)
                        (cols (search_template tpl)) (rows (search_template tpl))) = true.
Proof.
  intros Hr Hc Htr Htc. rewrite (Search_unmasked data tpl roi threshold Hr Hc).
  pose proof (extended_roi_fits data tpl roi Hr Hc) as Hfit.
  set (ext := extended_roi_of data tpl roi) in *.
  set (m := matchTemplate score (view data ext) (search_template tpl) method).
  destruct (small_roi tpl ext) eqn:Hs; [discriminate |].
  destruct (Qleb (max_val (minMaxLoc m None) - min_val (minMaxLoc m None)) threshold);
    [discriminate |].
  intro H. injection H as <-.
  pose proof (not_small_cells data tpl roi Hs) as H0. fold ext in H0. fold m in H0.
  assert (Hne : cells m <> []) by (intro E; rewrite E in H0; contradiction).
  destruct (minMaxLoc_first m Hne) as (Hin & _).
  apply In_cells in Hin. cbn [m matchTemplate rows cols view] in Hin.
  destruct (mark_at_center tpl ext (max_loc (minMaxLoc m None)))
    as (Cx & Cy & Hpix & Ct & Cr).
  split; [exact Ct |]. split; [exact Cr |].
  rewrite Hpix. split; [exact Cx |]. split; [exact Cy |].
  unfold roi_fits in Hfit. rewrite !andb_true_iff, !Z.leb_le in Hfit.
  unfold match_point, Point_sub. cbn [px py].
  unfold roi_fits. cbn [x y width height].
  rewrite !andb_true_iff, !Z.leb_le. lia.
Qed.

(** X13.  With a template of non-zero size, a mark found by searching a
    caller's rectangle (without mask) has its centre in that rectangle, the
    right and the bottom edge included. *)
Theorem Search_found_in_region (data : Mat pixel) (tpl : TemplateData) (r : Rect)
        (threshold : Q) (found : Mark) :
  0 <= rows data -> 0 <= cols data ->
  0 < rows (search_template tpl) -> 0 < cols (search_template tpl) ->
  0 <= width r -> 0 <= height r ->
  Search score cv_sqrt data tpl (Some r) None threshold = Ok (Some found) ->
  x r <= px (pixel_of (center found)) <= x r + width r /\
  y r <= py (pixel_of (center found)) <= y r + height r.
Proof.
  intros Hr Hc Htr Htc Hw Hh.
  rewrite (Search_unmasked data tpl (Some r) threshold Hr Hc).
  assert (Hext : extended_roi_of data tpl (Some r)
                 = Rect_and (grown tpl r) (Rect_of_size data)).
  { cbn [extended_roi_of]. rewrite grown_points by lia. reflexivity. }
  set (ext := extended_roi_of data tpl (Some r)) in *.
  set (m := matchTemplate score (view data ext) (search_template tpl) method).
  destruct (small_roi tpl ext) eqn:Hs; [discriminate |].
  destruct (Qleb (max_val (minMaxLoc m None) - min_val (minMaxLoc m None)) threshold);
    [discriminate |].
  intro H. injection H as <-.
  pose proof (not_small_cells data tpl (Some r) Hs) as H0. fold ext in H0. fold m in H0.
  assert (Hne : cells m <> []) by (intro E; rewrite E in H0; contradiction).
  destruct (minMaxLoc_first m Hne) as (Hin & _).
  apply In_cells in Hin. cbn [m matchTemplate rows cols view] in Hin.
  destruct (mark_at_center tpl ext (max_loc (minMaxLoc m None))) as (_ & _ & Hpix & _).
  rewrite Hpix. unfold match_point. cbn [px py].
  unfold small_roi in Hs. apply orb_false_iff in Hs. destruct Hs as (S1 & S2).
  apply Z.ltb_ge in S1. apply Z.ltb_ge in S2.
  assert (Hhx : 0 <= 2 * px (half_size tpl) <= cols (search_template tpl)).
  { unfold half_size. cbn [px]. rewrite Z.quot_div_nonneg by lia.
    pose proof (Z.mul_div_le (cols (search_template tpl)) 2).
    pose proof (Z.div_pos (cols (search_template tpl)) 2). lia. }
  assert (Hhy : 0 <= 2 * py (half_size tpl) <= rows (search_template tpl)).
  { unfold half_size. cbn [py]. rewrite Z.quot_div_nonneg by lia.
    pose proof (Z.mul_div_le (rows (search_template tpl)) 2).
    pose proof (Z.div_pos (rows (search_template tpl)) 2). lia. }
  revert S1 S2 Hin. rewrite Hext. unfold Rect_and, grown, Rect_of_size.
  cbn [x y width height].
  match goal with |- context [if ?c then _ else _] => destruct c eqn:E end;
    cbn [x y width height]; intros S1 S2 Hin; [lia |].
  apply orb_false_iff in E. destruct E as (E1 & E2).
  apply Z.leb_gt in E1. apply Z.leb_gt in E2. lia.
Qed.

(** X14.  When the extended region is exactly as large as the template, the
    score map has a single position, the confidence is 0, and [Search]
    without a mask finds nothing for any threshold >= 0. *)
Theorem Search_single_position (data : Mat pixel) (tpl : TemplateData) (roi : option Rect)
        (threshold : Q) :
  0 <= rows data -> 0 <= cols data ->
  width (extended_roi_of data tpl roi) = cols (search_template tpl) ->
  height (extended_roi_of data tpl roi) = rows (search_template tpl) ->
  (0 <= threshold)%Q ->
  Search score cv_sqrt data tpl roi None threshold = Ok None.
Proof.
  intros Hr Hc Hw Hh Ht. rewrite (Search_unmasked data tpl roi threshold Hr Hc).
  set (ext := extended_roi_of data tpl roi) in *.
  set (m := matchTemplate score (view data ext) (search_template tpl) method).
  destruct (small_roi tpl ext); [reflexivity |].
  assert (Hcells : cells m = [mkPoint 0 0]).
  { unfold cells. cbn [m matchTemplate rows cols view].
    replace (height ext - rows (search_template tpl) + 1) with 1 by lia.
    replace (width ext - cols (search_template tpl) + 1) with 1 by lia.
    reflexivity. }
  unfold minMaxLoc. cbn [filter selected]. rewrite Hcells. cbn [filter selected scan].
  cbn [max_val min_val].
  replace (Qleb (value_at m (mkPoint 0 0) - value_at m (mkPoint 0 0)) threshold) with true;
    [reflexivity |].
  symmetry. apply Qleb_true. lra.
Qed.

(** X15.  With a negative threshold [Search] without a mask finds a mark in
    every image whose extended region is not smaller than the template: the
    confidence, greatest minus least score, is never negative. *)
Theorem Search_negative_threshold (data : Mat pixel) (tpl : TemplateData)
        (roi : option Rect) (threshold : Q) :
  0 <= rows data -> 0 <= cols data ->
  small_roi tpl (extended_roi_of data tpl roi) = false ->
  (threshold < 0)%Q ->
  exists found, Search score cv_sqrt data tpl roi None threshold = Ok (Some found).
Proof.
  intros Hr Hc Hs Ht. rewrite (Search_unmasked data tpl roi threshold Hr Hc).
  set (ext := extended_roi_of data tpl roi) in *.
  set (m := matchTemplate score (view data ext) (search_template tpl) method).
  rewrite Hs.
  pose proof (not_small_cells data tpl roi Hs) as H0. fold ext in H0. fold m in H0.
  assert (Hne : selection m None <> []).
  { rewrite selection_None. intro E. rewrite E in H0. contradiction. }
  destruct (minMaxLoc_bounds m None Hne) as (Hin & _ & Vmax & _ & Hb).
  destruct (Hb _ Hin) as (Hlo & _). rewrite <- Vmax in Hlo.
  replace (Qleb (max_val (minMaxLoc m None) - min_val (minMaxLoc m None)) threshold)
    with false; [eexists; reflexivity |].
  symmetry. apply Qleb_false. lra.
Qed.

(** X16.  The standard deviation [Search] computes does not reach its
    result: with another square root the outcome is the same. *)
Theorem Search_ignores_std_dev (other_sqrt : Q -> Q) (data : Mat pixel)
        (tpl : TemplateData) (roi : option Rect) (mask : option (Mat pixel))
        (threshold : Q) :
  Search score cv_sqrt data tpl roi mask threshold
  = Search score other_sqrt data tpl roi mask threshold.
Proof.
  unfold Search.
  destruct (small_roi tpl (extended_roi_of data tpl roi)); [reflexivity |].
  destruct (match_result_of score data tpl (extended_roi_of data tpl roi)) as [m | f];
    [| reflexivity].
  cbn [bind]. rewrite !statistics_of_mask.
  destruct (mask_for_scores tpl (extended_roi_of data tpl roi) m mask) as [k | f];
    reflexivity.
Qed.

(** X17.  A mask with fewer rows or fewer columns than the image makes a
    search of the whole image raise the OpenCV error, once the small-roi
    test has passed. *)
Theorem Search_small_mask (data mask : Mat pixel) (tpl : TemplateData) (threshold : Q) :
  0 <= rows data -> 0 <= cols data ->
  small_roi tpl (extended_roi_of data tpl None) = false ->
  rows mask < rows data \/ cols mask < cols data ->
  Search score cv_sqrt data tpl None (Some mask) threshold = Abort CvError.
Proof.
  intros Hr Hc Hs Hm. unfold Search. rewrite Hs.
  rewrite (match_result_of_Ok score data tpl None Hr Hc). cbn [bind].
  unfold statistics_of, shifted_mask_of, Mat_roi.
  replace (roi_fits mask (extended_roi_of data tpl None)) with false; [reflexivity |].
  symmetry. unfold roi_fits. cbn [extended_roi_of Rect_of_size x y width height].
  rewrite !andb_false_iff, !Z.leb_gt. lia.
Qed.

(** X18.  With a mask of the image's size and a template of at least two
    rows and columns of which one number is odd, [Search] fails an
    assertion once the small-roi test has passed: the shifted mask is one
    row or column larger than the score map. *)
Theorem Search_odd_template (data mask : Mat pixel) (tpl : TemplateData)
        (roi : option Rect) (threshold : Q) :
  0 <= rows data -> 0 <= cols data ->
  rows mask = rows data -> cols mask = cols data ->
  2 <= rows (search_template tpl) -> 2 <= cols (search_template tpl) ->
  Z.odd (rows (search_template tpl)) = true \/ Z.odd (cols (search_template tpl)) = true ->
  small_roi tpl (extended_roi_of data tpl roi) = false ->
  Search score cv_sqrt data tpl roi (Some mask) threshold = Abort AssertFailed.
Proof.
  intros Hr Hc Hmr Hmc Htr Htc Hodd Hs.
  pose proof (extended_roi_fits data tpl roi Hr Hc) as Hfit.
  unfold Search. rewrite Hs.
  rewrite (match_result_of_Ok score data tpl roi Hr Hc). cbn [bind].
  set (ext := extended_roi_of data tpl roi) in *.
  unfold small_roi in Hs. apply orb_false_iff in Hs. destruct Hs as (Hw & Hh).
  apply Z.ltb_ge in Hw. apply Z.ltb_ge in Hh.
  unfold statistics_of, shifted_mask_of, Mat_roi.
  assert (Hfit' : roi_fits mask ext = true)
    by (unfold roi_fits in *; rewrite Hmr, Hmc; exact Hfit).
  rewrite Hfit'. cbn [bind].
  unfold TopLeft, BottomRight, Point_neg, Point_sub, Point_add, origin,
    Rect_of_points, half_size.
  cbn [px py x y width height rows cols view].
  assert (Qx : Z.quot (cols (search_template tpl)) 2 = cols (search_template tpl) / 2)
    by (apply Z.quot_div_nonneg; lia).
  assert (Qy : Z.quot (rows (search_template tpl)) 2 = rows (search_template tpl) / 2)
    by (apply Z.quot_div_nonneg; lia).
  rewrite Qx, Qy.
  pose proof (Zmod_odd (cols (search_template tpl))) as Ox.
  pose proof (Zmod_odd (rows (search_template tpl))) as Oy.
  pose proof (Z.div_mod (cols (search_template tpl)) 2) as Dx.
  pose proof (Z.div_mod (rows (search_template tpl)) 2) as Dy.
  set (hx := cols (search_template tpl) / 2) in *.
  set (hy := rows (search_template tpl) / 2) in *.
  assert (Hhx : 1 <= hx /\ 2 * hx <= cols (search_template tpl)).
  { destruct (Z.odd (cols (search_template tpl))); lia. }
  assert (Hhy : 1 <= hy /\ 2 * hy <= rows (search_template tpl)).
  { destruct (Z.odd (rows (search_template tpl))); lia. }
  replace (Z.min (- (0 - hx)) (width ext - (0 + hx))) with hx by lia.
  replace (Z.min (- (0 - hy)) (height ext - (0 + hy))) with hy by lia.
  replace (Z.max (- (0 - hx)) (width ext - (0 + hx)) - hx + 1)
    with (width ext - 2 * hx + 1) by lia.
  replace (Z.max (- (0 - hy)) (height ext - (0 + hy)) - hy + 1)
    with (height ext - 2 * hy + 1) by lia.
  assert (Hfit2 : roi_fits (view mask ext)
                           (mkRect hx hy (width ext - 2 * hx + 1) (height ext - 2 * hy + 1))
                  = true).
  { unfold roi_fits. cbn [px py x y width height rows cols view].
    rewrite !andb_true_iff, !Z.leb_le. lia. }
  rewrite Hfit2. cbn [bind view rows cols height width matchTemplate].
  destruct (Z.odd (rows (search_template tpl))) eqn:Er.
  - replace (height ext - rows (search_template tpl) + 1 =? height ext - 2 * hy + 1)
      with false by (symmetry; apply Z.eqb_neq; lia).
    reflexivity.
  - replace (height ext - rows (search_template tpl) + 1 =? height ext - 2 * hy + 1)
      with true by (symmetry; apply Z.eqb_eq; lia).
    cbn [assert bind].
    destruct Hodd as [Hodd | Hodd]; [discriminate |]. rewrite Hodd in Ox.
    replace (width ext - cols (search_template tpl) + 1 =? width ext - 2 * hx + 1)
      with false by (symmetry; apply Z.eqb_neq; lia).
    reflexivity.
Qed.

(** X19.  A template that [InitTrackerData] has taken from an image, for a
    mark whose centre and doubled radius are numbers of the format, is
    smaller than the image by at least one row and one column: searching
    the whole of any image at least as large never takes the small-roi
    exit, and the score map has two rows and two columns or more. *)
Theorem Search_after_InitTrackerData (fl : Q -> Q) (bound : Z) (data_ tpl : TemplateData)
        (data data' : Mat pixel) (mark : Mark) :
  rounding fl bound -> 0 <= rows data <= bound -> 0 <= cols data <= bound ->
  type mark = kCircle -> (0 <= radius mark)%Q ->
  exact fl (fx (center mark)) -> exact fl (fy (center mark)) ->
  exact fl (2 * radius mark) ->
  InitTrackerData fl data_ data mark = Ok (true, tpl) ->
  rows data <= rows data' -> cols data <= cols data' ->
  small_roi tpl (extended_roi_of data' tpl None) = false /\
  exists m,
    match_result_of score data' tpl (extended_roi_of data' tpl None) = Ok m /\
    2 <= rows m /\ 2 <= cols m.
Proof.
  intros Hfl Hr Hc Ht Hr0 Ex Ey E2 Hinit Hrows Hcols.
  destruct (InitTrackerData_true fl _ _ _ _ Ht Hinit) as (Ha & _ & ->).
  pose proof (accepted_inside fl bound Hfl data mark Hr Hc Ex Ey Ha) as Hin.
  destruct (inside_patch fl bound Hfl data mark Hr Hc Hr0 E2 Hin)
    as (_ & _ & Pw & _ & _ & _ & Pr & Pb).
  unfold patch_rect in Pw, Pr, Pb. cbn [x y width height] in Pw, Pr, Pb.
  split.
  - unfold small_roi, patch_of, patch_rect.
    cbn [extended_roi_of Rect_of_size search_template view rows cols width height].
    apply orb_false_iff. split; apply Z.ltb_ge; lia.
  - eexists. split; [apply match_result_of_Ok; lia |].
    unfold patch_of, patch_rect.
    cbn [matchTemplate view extended_roi_of Rect_of_size search_template
         rows cols width height]. lia.
Qed.

End SearchFurther.

Section SearchLocal.

Variable score : TemplateMatchMode -> Mat pixel -> Mat pixel -> Q.
Variable cv_sqrt : Q -> Q.

(** The score of a window depends on its elements at the positions of the
    template only. *)
Hypothesis score_local :
  forall (mth : TemplateMatchMode) (w w' t : Mat pixel),
    (forall p, In p (cells t) -> value_at w p = value_at w' p) ->
    score mth w t = score mth w' t.

Lemma mask_for_scores_dims (tpl : TemplateData) (ext : Rect) (m m' : Mat Q)
      (mask : option (Mat pixel)) :
  rows m' = rows m -> cols m' = cols m ->
  mask_for_scores tpl ext m' mask = mask_for_scores tpl ext m mask.
Proof.
  intros Hr Hc. destruct mask as [k |]; [| reflexivity].
  unfold mask_for_scores, shifted_mask_of.
  destruct (Mat_roi k ext) as [cropped | f]; [| reflexivity]. cbn [bind].
  match goal with |- context [Mat_roi cropped ?r] => destruct (Mat_roi cropped r) end;
    [| reflexivity].
  cbn [bind]. rewrite Hr, Hc. reflexivity.
Qed.

(** X20.  [Search] reads the image inside the extended region only: on two
    images of the same size that agree there, it gives the same outcome,
    whatever template, region, mask and threshold. *)
Theorem Search_reads_region (data data' : Mat pixel) (tpl : TemplateData)
        (roi : option Rect) (mask : option (Mat pixel)) (threshold : Q) :
  0 <= rows data -> 0 <= cols data ->
  rows data' = rows data -> cols data' = cols data ->
  (forall i j,
      y (extended_roi_of data tpl roi) <= i
      < y (extended_roi_of data tpl roi) + height (extended_roi_of data tpl roi) ->
      x (extended_roi_of data tpl roi) <= j
      < x (extended_roi_of data tpl roi) + width (extended_roi_of data tpl roi) ->
      at_ data' i j = at_ data i j) ->
  Search score cv_sqrt data' tpl roi mask threshold
  = Search score cv_sqrt data tpl roi mask threshold.
Proof.
  intros Hr Hc Hr' Hc' Hagree.
  assert (Hext : extended_roi_of data' tpl roi = extended_roi_of data tpl roi).
  { unfold extended_roi_of, Rect_of_size. rewrite Hr', Hc'. reflexivity. }
  unfold Search. rewrite Hext.
  set (ext := extended_roi_of data tpl roi) in *.
  destruct (small_roi tpl ext); [reflexivity |].
  pose proof (match_result_of_Ok score data tpl roi Hr Hc) as Hm. fold ext in Hm.
  assert (Hm' : match_result_of score data' tpl ext
                = Ok (matchTemplate score (view data' ext) (search_template tpl) method)).
  { rewrite <- Hext. apply match_result_of_Ok; lia. }
  rewrite Hm, Hm'. cbn [bind].
  set (m := matchTemplate score (view data ext) (search_template tpl) method).
  set (m' := matchTemplate score (view data' ext) (search_template tpl) method).
  rewrite !statistics_of_mask.
  rewrite (mask_for_scores_dims tpl ext m m' mask eq_refl eq_refl).
  destruct (mask_for_scores tpl ext m mask) as [k | f]; [| reflexivity].
  cbn [bind fst].
  assert (Hmm : minMaxLoc m' k = minMaxLoc m k).
  { apply minMaxLoc_ext; [reflexivity | reflexivity |].
    intros p Hp. apply In_selection in Hp. destruct Hp as (Hp & _).
    apply In_cells in Hp. cbn [m' matchTemplate rows cols view] in Hp.
    unfold value_at at 1 2. cbn [m m' matchTemplate at_].
    apply score_local. intros q Hq. apply In_cells in Hq.
    unfold value_at, window, view. cbn [at_ rows cols].
    apply Hagree; lia. }
  rewrite Hmm. reflexivity.
Qed.

End SearchLocal.

Lemma cv_score_local (mth : TemplateMatchMode) (w w' t : Mat pixel) :
  (forall p, In p (cells t) -> value_at w p = value_at w' p) ->
  cv_score mth w t = cv_score mth w' t.
Proof.
  intro H.
  assert (E1 : map (value_at w) (cells t) = map (value_at w') (cells t))
    by (apply map_ext_in; exact H).
  assert (E2 : map (fun p => value_at w p * value_at w p) (cells t)
               = map (fun p => value_at w' p * value_at w' p) (cells t))
    by (apply map_ext_in; intros p Hp; now rewrite (H p Hp)).
  assert (E3 : map (fun p => value_at w p * value_at t p) (cells t)
               = map (fun p => value_at w' p * value_at t p) (cells t))
    by (apply map_ext_in; intros p Hp; now rewrite (H p Hp)).
  unfold cv_score. cbv zeta. rewrite E1, E2, E3. reflexivity.
Qed.

(** ** Examples for the further properties *)

Lemma calibrated_pipeline_reachable : reachable calibrated_pipeline.
Proof.
  apply (reach_SetCalibrationData calibration2
           (from_Ok (Initialize [0; 2] three_cameras)) calibrated_pipeline);
    [| reflexivity].
  apply (reach_Initialize [0; 2] three_cameras _ three_cameras_reachable).
  reflexivity.
Qed.

Lemma three_cameras_discovered :
  AvailableVideoProviders 3 (fun device => device <? 3) Application_new
  = Some (three_cameras, [0; 1; 2]).
Proof. reflexivity. Qed.

Lemma Initialize_succeeds_iff_witness :
  (exists app', Initialize [0; 2] three_cameras = Ok app') /\
  Initialize [0; 0] three_cameras = Abort AssertFailed.
Proof.
  assert (Hnd : NoDup (owned (available_providers_ three_cameras))).
  { repeat constructor; simpl; intuition discriminate. }
  split.
  - apply (proj1 (Initialize_succeeds_iff [0; 2] three_cameras Hnd)).
    split; [discriminate |]. split.
    + repeat constructor; simpl; intuition discriminate.
    + simpl. intuition.
  - apply (proj2 (Initialize_succeeds_iff [0; 0] three_cameras Hnd)).
    intros app' H.
    assert (Hex : exists a, Initialize [0; 0] three_cameras = Ok a) by (exists app'; exact H).
    apply (proj1 (Initialize_succeeds_iff [0; 0] three_cameras Hnd)) in Hex.
    destruct Hex as (_ & Hd & _). inversion Hd as [| ? ? Hn _]. apply Hn. now left.
Defined.

Lemma reachable_coherent_witness : coherent calibrated_pipeline.
Proof. exact (reachable_coherent calibrated_pipeline calibrated_pipeline_reachable). Defined.

Lemma Initialize_needs_discovery_witness :
  Initialize [1] calibrated_pipeline = Abort AssertFailed.
Proof.
  apply (Initialize_needs_discovery [1] calibrated_pipeline calibrated_pipeline_reachable).
  discriminate.
Defined.

Lemma stored_calibration_is_last_broadcast_witness :
  last_broadcast (events calibrated_pipeline) calibration2.
Proof.
  exact (stored_calibration_is_last_broadcast calibrated_pipeline
           calibrated_pipeline_reachable).
Defined.

Lemma Initialize_starts_last_witness :
  exists done,
    events (from_Ok (Initialize [0; 2] three_cameras))
    = events three_cameras ++ done ++ [Emit SetupPipeline; InvokeStart false] /\
    In (Connect Converter_MarkCreated_Controller_SetMark) done.
Proof.
  destruct (Initialize_starts_last [0; 2] three_cameras
              (from_Ok (Initialize [0; 2] three_cameras)) eq_refl)
    as (done & Hev & Hc & _).
  exists done. split; [exact Hev | apply Hc].
Defined.

Lemma AvailableVideoProviders_sources_witness :
  StronglySorted Z.lt [0; 1; 2] /\
  available_providers_ three_cameras = [Some 0; Some 1; Some 2].
Proof.
  destruct (AvailableVideoProviders_sources 3 (fun device => device <? 3)
              Application_new three_cameras [0; 1; 2])
    as (Hs & _ & _ & _ & Hp).
  - lia.
  - exact three_cameras_discovered.
  - split; [exact Hs | exact Hp].
Defined.

Lemma AvailableVideoProviders_extremes_witness :
  option_map snd (AvailableVideoProviders 2 (fun _ => true) Application_new)
  = Some [0; 1; 2; 3] /\
  option_map snd (AvailableVideoProviders 2 (fun _ => false) Application_new) = Some [].
Proof.
  split.
  - destruct (AvailableVideoProviders 2 (fun _ => true) Application_new)
      as [[app' sources] |] eqn:E; [| discriminate E].
    destruct (AvailableVideoProviders_extremes 2 (fun _ => true) Application_new
                app' sources ltac:(lia) E) as (Hall & _).
    simpl. rewrite Hall; [reflexivity | reflexivity].
  - destruct (AvailableVideoProviders 2 (fun _ => false) Application_new)
      as [[app' sources] |] eqn:E; [| discriminate E].
    destruct (AvailableVideoProviders_extremes 2 (fun _ => false) Application_new
                app' sources ltac:(lia) E) as (_ & Hnone).
    simpl. destruct Hnone as (-> & _); reflexivity.
Defined.

Lemma AvailableVideoProviders_no_arity_witness :
  exists app',
    AvailableVideoProviders 0 (fun _ => true) Application_new = Some (app', [0]) /\
    probed (fun _ => true) 0 1 (InitializeEmpty Application_new) app'.
Proof.
  apply (AvailableVideoProviders_no_arity 0 (fun _ => true) Application_new). lia.
Defined.

Lemma Initialize_after_discovery_witness :
  exists app',
    Initialize [2; 0] three_cameras = Ok app' /\ arity_ app' = 2 /\
    In (Delete 1) (events app').
Proof.
  destruct (Initialize_after_discovery 3 (fun device => device <? 3) Application_new
              three_cameras [0; 1; 2] [2; 0] three_cameras_discovered)
    as (app' & Hi & Ha & _ & _ & Hdel).
  - discriminate.
  - repeat constructor; simpl; intuition discriminate.
  - intros p Hp. simpl in *. intuition.
  - exists app'. split; [exact Hi |]. split; [exact Ha |].
    apply Hdel; simpl; intuition discriminate.
Defined.

Lemma InitTrackerData_negative_radius_witness :
  InitTrackerData no_rounding no_template (blank 10 10) (circle 5 5 (-1)) = Abort CvError.
Proof.
  apply (InitTrackerData_negative_radius no_rounding 10 no_template (blank 10 10)
           (circle 5 5 (-1)) (no_rounding_rounding 10)).
  - lia.
  - reflexivity.
  - unfold Qle; simpl; lia.
  - unfold accepted, Qle, Qlt; simpl; lia.
Defined.

Lemma Search_unmasked_returns_witness :
  exists outcome,
    Search cv_score sqrt_model spot spot_template (Some (mkRect 4 4 1 1)) None 0
    = Ok outcome.
Proof.
  apply (Search_unmasked_returns cv_score sqrt_model spot spot_template
           (Some (mkRect 4 4 1 1)) 0); cbn; lia.
Defined.

Lemma Search_found_inside_witness :
  roi_fits spot (mkRect 0 0 2 2) = true /\ pixel_of (center (circle 1 1 1)) = mkPoint 1 1.
Proof.
  destruct (Search_found_inside cv_score sqrt_model spot spot_template None 0
              (circle 1 1 1) ltac:(cbn; lia) ltac:(cbn; lia) ltac:(cbn; lia)
              ltac:(cbn; lia) ltac:(vm_compute; reflexivity))
    as (_ & _ & _ & _ & _ & _ & _ & _ & Hfit).
  split; [exact Hfit | reflexivity].
Defined.

Lemma Search_found_in_region_witness :
  0 <= px (pixel_of (center (circle 1 1 1))) <= 0 + 3 /\
  0 <= py (pixel_of (center (circle 1 1 1))) <= 0 + 3.
Proof.
  apply (Search_found_in_region cv_score sqrt_model spot spot_template (mkRect 0 0 3 3) 1
           (circle 1 1 1)); try (cbn; lia).
  vm_compute. reflexivity.
Defined.

Lemma Search_single_position_witness :
  Search cv_score sqrt_model (search_template spot_template) spot_template None None 0
  = Ok None.
Proof.
  apply Search_single_position; try (cbn; lia); try reflexivity.
  unfold Qle; simpl; lia.
Defined.

Lemma Search_negative_threshold_witness :
  exists found,
    Search cv_score sqrt_model (blank 3 3) flat_template None None (-1) = Ok (Some found).
Proof.
  apply Search_negative_threshold; try (cbn; lia); try reflexivity.
Defined.

Lemma Search_small_mask_witness :
  Search cv_score sqrt_model spot spot_template None (Some (ones 3 3)) 0 = Abort CvError.
Proof.
  apply Search_small_mask; try (cbn; lia); try reflexivity.
Defined.

Lemma Search_odd_template_witness :
  Search cv_score sqrt_model spot odd_template None (Some (ones 4 4)) 0
  = Abort AssertFailed.
Proof.
  apply Search_odd_template; try (cbn; lia); try reflexivity.
Defined.

Lemma Search_after_InitTrackerData_witness :
  small_roi spot_template (extended_roi_of spot_far spot_template None) = false /\
  exists m,
    match_result_of cv_score spot_far spot_template
                    (extended_roi_of spot_far spot_template None) = Ok m /\
    2 <= rows m /\ 2 <= cols m.
Proof.
  apply (Search_after_InitTrackerData cv_score no_rounding 4 no_template spot_template
           spot spot_far (circle 1 1 1) (no_rounding_rounding 4));
    try (cbn; lia); try reflexivity.
  unfold Qle; simpl; lia.
Defined.

Lemma Search_reads_region_witness :
  Search cv_score sqrt_model spot_far spot_template (Some (mkRect 1 1 1 1)) None 0
  = Search cv_score sqrt_model spot spot_template (Some (mkRect 1 1 1 1)) None 0.
Proof.
  apply (Search_reads_region cv_score sqrt_model cv_score_local); try (cbn; lia).
  intros i j Hi Hj. cbn in Hi, Hj. cbn [spot spot_far at_].
  destruct (Z.eqb_spec i 3) as [E | E]; [lia |].
  destruct ((i =? 1) && (j =? 1)); reflexivity.
Defined.

Lemma AvailableVideoProviders_tears_down_witness :
  exists idle sources,
    AvailableVideoProviders 3 (fun device => device <? 3) calibrated_pipeline
    = Some (idle, sources) /\
    controller_ idle = None /\
    In (DestroyController (mkController [0; 2] 2)) (events idle).
Proof.
  destruct (AvailableVideoProviders 3 (fun device => device <? 3) calibrated_pipeline)
    as [[idle sources] |] eqn:E; [| discriminate E].
  exists idle, sources. split; [reflexivity |].
  destruct (AvailableVideoProviders_tears_down _ _ _ _ _ E)
    as ((failed & Hev & _) & _ & Hc & _).
  split; [exact Hc |]. rewrite Hev.
  apply in_or_app. right. apply in_or_app. right. apply in_or_app. right.
  apply in_or_app. left. left. reflexivity.
Defined.
